(** * Callback handlers of the Spotted bot: a shallow embedding

    The development follows [modules/handlers/callback_handlers.py].  The
    Python handlers read and write a database through the classes
    [PendingPost], [PublishedPost], [Report] and [User], call the Telegram
    bot API and write to a logger.  Here the database, the dictionaries
    [bot_data] and [user_data] and the sequence of API calls and log lines
    are the fields of one record [World], and every handler is a function in
    a state-and-exception monad over it. *)

From stdpp Require Import gmap strings list fin_maps.
From Stdlib Require Import ZArith Lia Ascii String.

Open Scope string_scope.
Open Scope Z_scope.

(** ** Python strings and lists *)

(** [s.split(",")]: the pieces of [s] between commas; never empty. *)
Fixpoint split_comma (s : string) : list string :=
  match s with
  | EmptyString => [""]
  | String c rest =>
      if Ascii.eqb c ","%char then "" :: split_comma rest
      else match split_comma rest with
           | piece :: pieces => String c piece :: pieces
           | [] => [String c ""]
           end
  end.

(** [s[n:]]: [s] without its first [n] characters (tokens are ASCII). *)
Fixpoint drop_prefix (n : nat) (s : string) : string :=
  match n, s with
  | O, _ => s
  | S _, EmptyString => ""
  | S n', String _ rest => drop_prefix n' rest
  end.

Definition has_comma (s : string) : bool :=
  existsb (fun c => Ascii.eqb c ","%char) (list_ascii_of_string s).

(** ** Legacy tokens *)

Definition old_reactions (data : string) : string :=
  if String.eqb data "meme_vote_yes" then "meme_vote,1"
  else if String.eqb data "meme_vote_no" then "meme_vote,0"
  else data.

(** ** Data model *)

(** The errors of [telegram.error]: the two that the handlers catch, and
    [TimedOut] for every other one (a network error, flood control, ...). *)
Inductive TelegramError := BadRequest | Unauthorized | TimedOut.

(** [except (BadRequest, Unauthorized)] *)
Definition caught (e : TelegramError) : bool :=
  match e with
  | BadRequest | Unauthorized => true
  | TimedOut => false
  end.

(** The exceptions that can leave a handler. *)

Inductive exn :=
| KeyError (key : string)
| IndexError
| AttributeError
| TypeError
| NotFound
| TelegramErr (e : TelegramError).

(** The signal of a reaction category outside the enumeration.  In the
    source a category that is not a key of [REACTION] shows up as the
    [KeyError] of the subscript [REACTION[arg]]. *)
Definition InvalidCategory (category : string) : exn := KeyError category.

Inductive Res (A : Type) :=
| Ok (a : A)
| Raise (e : exn).
Arguments Ok {A} a.
Arguments Raise {A} e.

(** An inline keyboard is rows of buttons (text, callback data); the markup
    sent to Telegram wraps one. *)
Definition Button : Type := string * string.
Definition Keyboard : Type := list (list Button).
Record Markup := InlineKeyboardMarkup { inline_keyboard : Keyboard }.

(** Keys of the [STATE] dictionary that the handlers return. *)
Inductive ConvState := STATE_end | STATE_reporting_spot.

Record Message := {
  msg_id : Z;
  msg_from : Z;
  (* whether the kind of post is one of those accepted for a spot *)
  msg_allowed : bool
}.

(** The dictionary built by [get_callback_info], without the shared
    dictionaries [bot_data] and [user_data], which live in [World]. *)
Record CallbackInfo := {
  data : string;
  chat_id : Z;
  message_id : Z;
  sender_id : Z;
  sender_username : option string;
  query_id : Z;
  message : Message;
  reply_to_message : option Message;
  reply_markup : option Markup
}.

Definition with_data (info : CallbackInfo) (d : string) : CallbackInfo :=
  {| data := d; chat_id := chat_id info; message_id := message_id info;
     sender_id := sender_id info; sender_username := sender_username info;
     query_id := query_id info; message := message info;
     reply_to_message := reply_to_message info;
     reply_markup := reply_markup info |}.

(** The Python objects returned by [from_group] and [from_channel]: the
    identity of the row, and for a pending post the submitter. *)
Record PendingPost := {
  user_id : Z;
  group_id : Z;
  g_message_id : Z
}.

Record PublishedPost := {
  channel_id : Z;
  c_message_id : Z
}.

(** What the store keeps for a pending post: the submitter and one row
    (admin, vote) per admin vote ([true] approves, [false] rejects). *)
Record PendingRecord := {
  submitter : Z;
  admin_votes : list (Z * bool)
}.

(** What the store keeps for a published post: one row (voter, category)
    per reaction. *)
Abbreviation Tally := (list (Z * string)) (only parsing).

(** Calls of the bot API, lines of the logger and deletions of pending
    posts, in the order issued.  [SendPostToAdmin] and [SendPostToChannel]
    stand for the message sent and the record created with it. *)
Inductive Event :=
| AnswerCallbackQuery (query : Z) (text : option string)
| SendMessage (chat : Z) (text : string)
| ForwardMessage (chat from_chat msg : Z)
| EditMessageText (chat msg : Z) (text : string) (markup : option Markup)
| EditMessageReplyMarkup (chat msg : Z) (markup : option Markup)
| SendPostToAdmin (group msg : Z)
| SendPostToChannel (channel msg : Z)
| ShowAdminsVotes (group msg : Z) (approve : bool) (admins : list Z)
| DeletePost (group msg : Z)
| LogError (where_ : string) (e : exn)
| LogErrorArg (where_ : string) (arg : string)
| LogWarning (where_ : string) (e : TelegramError).

Record World := {
  pending : gmap (Z * Z) PendingRecord;
  published : gmap (Z * Z) Tally;
  reports : gset (Z * Z * Z);
  credited : gset Z;
  bot_data : gmap (Z * Z) Z;
  user_data : gmap Z Z;
  next_message_id : Z;
  trace : list Event
}.

(** Everything the handlers read but never write: [config_map], the
    [REACTION] table, the keyboard renderers, the statistics queries and the
    answer of Telegram to [send_message]. *)
Record Env := {
  n_votes : Z;
  comments : bool;
  cfg_channel_id : Z;
  cfg_group_id : Z;
  REACTION : gmap string string;
  update_approve_kb : Keyboard -> PendingPost -> bool -> Z -> Markup;
  update_vote_kb : Keyboard -> PublishedPost -> Tally -> Markup;
  get_stats_kb : Markup;
  deliver : Z -> option TelegramError;
  get_avg : option string -> string;
  get_max_id : option string -> string * string * string;
  get_n_posts : string;
  get_n_votes : option string -> string
}.

(** ** The monad of the handlers

    A Python call either returns or raises, and whatever it has written to
    the store and sent to Telegram before raising stays. *)

Definition M (A : Type) : Type := World -> Res A * World.

Definition ret {A} (a : A) : M A := fun w => (Ok a, w).

Definition raise {A} (e : exn) : M A := fun w => (Raise e, w).

Definition bind {A B} (m : M A) (k : A -> M B) : M B :=
  fun w =>
    match m w with
    | (Ok a, w') => k a w'
    | (Raise e, w') => (Raise e, w')
    end.

(** [try: m except E: h]; [h e] is [None] when [e] is not an instance of [E]. *)
Definition try_except {A} (m : M A) (h : exn -> option (M A)) : M A :=
  fun w =>
    match m w with
    | (Ok a, w') => (Ok a, w')
    | (Raise e, w') =>
        match h e with
        | Some k => k w'
        | None => (Raise e, w')
        end
    end.

Notation "x <- m ;; k" := (bind m (fun x => k))
  (at level 100, m at next level, right associativity).
Notation "m ;;; k" := (bind m (fun _ => k))
  (at level 100, right associativity).

Definition get_world : M World := fun w => (Ok w, w).

Definition emit (e : Event) : M unit :=
  fun w =>
    (Ok tt,
     {| pending := pending w; published := published w; reports := reports w;
        credited := credited w; bot_data := bot_data w;
        user_data := user_data w; next_message_id := next_message_id w;
        trace := trace w ++ [e] |}).

Definition set_pending (f : gmap (Z * Z) PendingRecord -> gmap (Z * Z) PendingRecord) : M unit :=
  fun w =>
    (Ok tt,
     {| pending := f (pending w); published := published w;
        reports := reports w; credited := credited w; bot_data := bot_data w;
        user_data := user_data w; next_message_id := next_message_id w;
        trace := trace w |}).

Definition set_published (f : gmap (Z * Z) Tally -> gmap (Z * Z) Tally) : M unit :=
  fun w =>
    (Ok tt,
     {| pending := pending w; published := f (published w);
        reports := reports w; credited := credited w; bot_data := bot_data w;
        user_data := user_data w; next_message_id := next_message_id w;
        trace := trace w |}).

Definition set_credited (f : gset Z -> gset Z) : M unit :=
  fun w =>
    (Ok tt,
     {| pending := pending w; published := published w;
        reports := reports w; credited := f (credited w);
        bot_data := bot_data w; user_data := user_data w;
        next_message_id := next_message_id w; trace := trace w |}).

Definition set_bot_data (k : Z * Z) (v : Z) : M unit :=
  fun w =>
    (Ok tt,
     {| pending := pending w; published := published w;
        reports := reports w; credited := credited w;
        bot_data := <[k := v]> (bot_data w); user_data := user_data w;
        next_message_id := next_message_id w; trace := trace w |}).

Definition set_user_data (user v : Z) : M unit :=
  fun w =>
    (Ok tt,
     {| pending := pending w; published := published w;
        reports := reports w; credited := credited w;
        bot_data := bot_data w; user_data := <[user := v]> (user_data w);
        next_message_id := next_message_id w; trace := trace w |}).

(** A message id that Telegram has not given out yet. *)
Definition fresh_message_id : M Z :=
  fun w =>
    (Ok (next_message_id w),
     {| pending := pending w; published := published w;
        reports := reports w; credited := credited w;
        bot_data := bot_data w; user_data := user_data w;
        next_message_id := next_message_id w + 1; trace := trace w |}).

(** ** Rows of a votes table

    Both votes tables hold rows (voter, vote).  [row_of] is the
    [SELECT ... WHERE voter = k], [update_rows] the [UPDATE], [delete_rows]
    the [DELETE] and [insert_row] the [INSERT]. *)
Section Rows.
Context {V : Type} `{EqDecision V}.

Definition row_of (rows : list (Z * V)) (k : Z) : option V :=
  match List.find (fun r => bool_decide (r.1 = k)) rows with
  | Some r => Some r.2
  | None => None
  end.

Definition delete_rows (rows : list (Z * V)) (k : Z) : list (Z * V) :=
  List.filter (fun r => negb (bool_decide (r.1 = k))) rows.

Definition update_rows (rows : list (Z * V)) (k : Z) (v : V) : list (Z * V) :=
  List.map (fun r => if bool_decide (r.1 = k) then (k, v) else r) rows.

Definition insert_row (rows : list (Z * V)) (k : Z) (v : V) : list (Z * V) :=
  rows ++ [(k, v)].

(** Rows of voter [k]. *)
Definition rows_of (rows : list (Z * V)) (k : Z) : list V :=
  List.map snd (List.filter (fun r => bool_decide (r.1 = k)) rows).

(** Number of rows whose vote is [v]. *)
Definition count_votes (rows : list (Z * V)) (v : V) : nat :=
  List.length (List.filter (fun r => bool_decide (r.2 = v)) rows).

(** Voters whose vote is [v], in table order. *)
Definition voters_of (rows : list (Z * V)) (v : V) : list Z :=
  List.map fst (List.filter (fun r => bool_decide (r.2 = v)) rows).

(** The invariant of a votes table: a voter has at most one row. *)
Definition one_row_each (rows : list (Z * V)) : Prop :=
  forall k, (List.length (rows_of rows k) <= 1)%nat.
End Rows.

Definition Reply : Type := option string * option Markup * option ConvState.

Inductive Destination := DestAdmin | DestChannel.

Definition pending_key (p : PendingPost) : Z * Z := (group_id p, g_message_id p).
Definition published_key (p : PublishedPost) : Z * Z := (channel_id p, c_message_id p).

(** ** The vote engine, on one record *)

(** Modelled from the spec: [PendingPost.set_admin_vote] is not in the
    source file.  An entry equal to [approve] is a redundant click: nothing
    changes and [no_change] is reported with the count of that direction;
    otherwise the entry is overwritten or inserted and the votes of the
    direction are counted again.  Result: (votes, count, no_change). *)
Definition cast_admin_vote (votes : list (Z * bool)) (admin_id : Z) (approve : bool)
  : list (Z * bool) * nat * bool :=
  match row_of votes admin_id with
  | Some vote =>
      if Bool.eqb vote approve then (votes, count_votes votes approve, true)
      else
        let votes' := update_rows votes admin_id approve in
        (votes', count_votes votes' approve, false)
  | None =>
      let votes' := insert_row votes admin_id approve in
      (votes', count_votes votes' approve, false)
  end.

(** The integer that the Python handlers receive: the source tests it
    against -1 for "the vote did not change". *)
Definition vote_result (count : nat) (no_change : bool) : Z :=
  if no_change then -1 else Z.of_nat count.

(** Modelled from the spec: [PublishedPost.set_user_vote] is not in the
    source file.  The same category again retracts the reaction and
    answers [false]; any other category is inserted or overwrites the
    prior one and answers [true]. *)
Definition cast_user_vote (tally : Tally) (voter : Z) (category : string)
  : Tally * bool :=
  match row_of tally voter with
  | Some current =>
      if String.eqb current category then (delete_rows tally voter, false)
      else (update_rows tally voter category, true)
  | None => (insert_row tally voter category, true)
  end.

(** Modelled from the spec: [file_report] of the Report Dedup Guard, which
    probes the identity tuple and creates the record when it is absent.
    The source has no function of this shape; see [report_spot_callback]. *)
Definition file_report (reports : gset (Z * Z * Z)) (reporter channel msg : Z)
  : gset (Z * Z * Z) * bool :=
  if decide ((reporter, channel, msg) ∈ reports) then (reports, true)
  else ({[ (reporter, channel, msg) ]} ∪ reports, false).

Section Handlers.
Variable env : Env.

(** *** Telegram and the logger *)

Definition answerCallbackQuery (query : Z) (text : option string) : M unit :=
  emit (AnswerCallbackQuery query text).

(** [bot.send_message] raises [BadRequest] or [Unauthorized] when
    Telegram cannot deliver to the chat, and another error when the call
    itself fails. *)
Definition send_message (chat : Z) (text : string) : M unit :=
  match deliver env chat with
  | Some e => raise (TelegramErr e)
  | None => emit (SendMessage chat text)
  end.

Definition forward_message (chat from_chat msg : Z) : M unit :=
  emit (ForwardMessage chat from_chat msg).

Definition edit_message_text (chat msg : Z) (text : string) (markup : option Markup) : M unit :=
  emit (EditMessageText chat msg text markup).

Definition edit_message_reply_markup (chat msg : Z) (markup : option Markup) : M unit :=
  emit (EditMessageReplyMarkup chat msg markup).

(** [try: bot.send_message(...) except (BadRequest, Unauthorized) as e:
    logger.warning(...)] *)
Definition notify_user (chat : Z) (text where_ : string) : M unit :=
  try_except (send_message chat text)
    (fun e =>
       match e with
       | TelegramErr t => if caught t then Some (emit (LogWarning where_ t)) else None
       | _ => None
       end).

(** [info['reply_markup'].inline_keyboard] *)
Definition keyboard_of (info : CallbackInfo) : M Keyboard :=
  match reply_markup info with
  | Some markup => ret (inline_keyboard markup)
  | None => raise AttributeError
  end.

(** [REACTION[arg]] *)
Definition reaction_of (arg : string) : M string :=
  match REACTION env !! arg with
  | Some r => ret r
  | None => raise (KeyError arg)
  end.

(** *** The store *)

(** Modelled from the spec: [PendingPost.from_group] is the store's
    [get(identity)]; the source compares its result with [None]. *)
Definition from_group (group msg : Z) : M (option PendingPost) :=
  w <- get_world ;;
  ret (match pending w !! (group, msg) with
       | Some r => Some {| user_id := submitter r; group_id := group; g_message_id := msg |}
       | None => None
       end).

(** Modelled from the spec: [set_admin_vote] on the record of the store;
    a record that is gone is [NotFound]. *)
Definition set_admin_vote (p : PendingPost) (admin_id : Z) (approval : bool) : M Z :=
  w <- get_world ;;
  match pending w !! pending_key p with
  | None => raise NotFound
  | Some r =>
      let '(votes', count, no_change) := cast_admin_vote (admin_votes r) admin_id approval in
      (if no_change then ret tt
       else set_pending (insert (pending_key p)
              {| submitter := submitter r; admin_votes := votes' |})) ;;;
      ret (vote_result count no_change)
  end.

(** Modelled from the spec: [delete_post] removes the record. *)
Definition delete_post (p : PendingPost) : M unit :=
  set_pending (delete (pending_key p)) ;;;
  emit (DeletePost (group_id p) (g_message_id p)).

(** Modelled from the spec: [show_admins_votes] tells the admin group who
    voted in the winning direction. *)
Definition show_admins_votes (p : PendingPost) (approve : bool) : M unit :=
  w <- get_world ;;
  emit (ShowAdminsVotes (group_id p) (g_message_id p) approve
          (match pending w !! pending_key p with
           | Some r => voters_of (admin_votes r) approve
           | None => []
           end)).

(** Modelled from the spec: [send_post_to] sends a copy of the message
    and creates the record of the destination: a PendingPost without
    votes in the admin group, a PublishedPost without reactions in the
    channel.  A kind of post that is not accepted is not sent to the
    admins and [None] is returned; a message that is already in the admin
    group is of an accepted kind. *)
Definition send_post_to (msg : option Message) (destination : Destination)
  : M (option (Z * Z)) :=
  match msg with
  | None => raise AttributeError
  | Some m =>
      match destination with
      | DestAdmin =>
          if msg_allowed m then
            new_id <- fresh_message_id ;;
            set_pending (insert (cfg_group_id env, new_id)
              {| submitter := msg_from m; admin_votes := [] |}) ;;;
            emit (SendPostToAdmin (cfg_group_id env) new_id) ;;;
            ret (Some (cfg_group_id env, new_id))
          else ret None
      | DestChannel =>
          new_id <- fresh_message_id ;;
          set_published (insert (cfg_channel_id env, new_id) []) ;;;
          emit (SendPostToChannel (cfg_channel_id env) new_id) ;;;
          ret (Some (cfg_channel_id env, new_id))
      end
  end.

(** Modelled from the spec: [PublishedPost.from_channel] is the store's
    [get(identity)], with [None] for an absent post as [from_group]. *)
Definition from_channel (channel msg : Z) : M (option PublishedPost) :=
  w <- get_world ;;
  ret (match published w !! (channel, msg) with
       | Some _ => Some {| channel_id := channel; c_message_id := msg |}
       | None => None
       end).

(** Modelled from the spec: [set_user_vote] loads the post, validates
    the category against the enumeration and casts the vote. *)
Definition set_user_vote (p : PublishedPost) (voter : Z) (vote : string) : M bool :=
  w <- get_world ;;
  match published w !! published_key p with
  | None => raise NotFound
  | Some tally =>
      match REACTION env !! vote with
      | None => raise (InvalidCategory vote)
      | Some _ =>
          let '(tally', was_added) := cast_user_vote tally voter vote in
          set_published (insert (published_key p) tally') ;;;
          ret was_added
      end
  end.

(** The reactions of a post, for the renderer. *)
Definition tally_of (p : PublishedPost) : M Tally :=
  w <- get_world ;;
  ret (default [] (published w !! published_key p)).

(** Modelled from the spec: [Report.get_post_report] probes the identity
    tuple; the source compares its result with [None]. *)
Definition get_post_report (user channel msg : Z) : M bool :=
  w <- get_world ;;
  ret (bool_decide ((user, channel, msg) ∈ reports w)).

(** [User.become_anonym] is not in the source file; after the docstring of
    [settings_callback], it removes the user from the credited users and
    answers true when the user was anonym already. *)
Definition become_anonym (user : Z) : M bool :=
  w <- get_world ;;
  if bool_decide (user ∈ credited w)
  then set_credited (fun s => s ∖ {[ user ]}) ;;; ret false
  else ret true.

(** [User.become_credited] is not in the source file; after the docstring of
    [settings_callback], it adds the user to the credited users and answers
    true when the user was credited already. *)
Definition become_credited (user : Z) : M bool :=
  w <- get_world ;;
  if bool_decide (user ∈ credited w)
  then ret true
  else set_credited (fun s => {[ user ]} ∪ s) ;;; ret false.

(** *** Handlers reached through [meme_callback] *)

Definition confirm_callback (info : CallbackInfo) (arg : string) : M Reply :=
  text <-
    (if String.eqb arg "yes" then
       let user_message := reply_to_message info in
       admin_message <- send_post_to user_message DestAdmin ;;
       match admin_message with
       | Some _ =>
           ret (Some ("Il tuo post è in fase di valutazione" ++ String "010" ""
                      ++ "Una volta pubblicato, lo potrai trovare su @Spotted_DMI"))
       | None =>
           ret (Some ("Si è verificato un problema" ++ String "010" ""
                      ++ "Assicurati che il tipo di post sia fra quelli consentiti"))
       end
     else if String.eqb arg "no" then ret (Some "Va bene, alla prossima 🙃")
     else emit (LogErrorArg "confirm_callback" arg) ;;; ret None) ;;
  ret (text, None, Some STATE_end).

Definition settings_callback (info : CallbackInfo) (arg : string) : M Reply :=
  let user := sender_id info in
  text <-
    (if String.eqb arg "anonimo" then
       already <- become_anonym user ;;
       if (already : bool) then ret (Some "Sei già anonimo")
       else ret (Some ("La tua preferenza è stata aggiornata" ++ String "010" ""
                       ++ "Ora i tuoi post saranno anonimi"))
     else if String.eqb arg "credit" then
       already <- become_credited user ;;
       let text :=
         if (already : bool) then "Sei già creditato nei post" ++ String "010" ""
         else "La tua preferenza è stata aggiornata" ++ String "010" "" in
       match sender_username info with
       | Some (String c name) =>
           ret (Some (text ++ "I tuoi post avranno come credit @" ++ String c name))
       | _ =>
           ret (Some (text ++ "ATTENZIONE:" ++ String "010" ""
                      ++ "Non hai nessun username associato al tuo account telegram"
                      ++ String "010" "" ++ "Se non lo aggiungi, non sarai creditato"))
       end
     else emit (LogErrorArg "settings_callback" arg) ;;; ret None) ;;
  ret (text, None, None).

Definition approve_yes_callback (info : CallbackInfo) (arg : string) : M Reply :=
  pending_post <- from_group (chat_id info) (message_id info) ;;
  match pending_post with
  | None => ret (None, None, None)
  | Some pending_post =>
      answerCallbackQuery (query_id info) None ;;;
      n_approve <- set_admin_vote pending_post (sender_id info) true ;;
      if Z.geb n_approve (n_votes env) then
        let user_id := user_id pending_post in
        published_post <- send_post_to (Some (message info)) DestChannel ;;
        (if comments env then
           match published_post with
           | Some key => set_bot_data key user_id
           | None => raise AttributeError
           end
         else ret tt) ;;;
        notify_user user_id "Il tuo ultimo post è stato pubblicato su @Spotted_DMI"
          "Notifying the user on approve_yes" ;;;
        show_admins_votes pending_post true ;;;
        delete_post pending_post ;;;
        ret (None, None, None)
      else if negb (Z.eqb n_approve (-1)) then
        keyboard <- keyboard_of info ;;
        ret (None, Some (update_approve_kb env keyboard pending_post true n_approve), None)
      else ret (None, None, None)
  end.

Definition approve_no_callback (info : CallbackInfo) (arg : string) : M Reply :=
  pending_post <- from_group (chat_id info) (message_id info) ;;
  match pending_post with
  | None => ret (None, None, None)
  | Some pending_post =>
      answerCallbackQuery (query_id info) None ;;;
      n_reject <- set_admin_vote pending_post (sender_id info) false ;;
      if Z.geb n_reject (n_votes env) then
        let user_id := user_id pending_post in
        notify_user user_id
          ("Il tuo ultimo post è stato rifiutato" ++ String "010" ""
           ++ "Puoi controllare le regole con /rules")
          "Notifying the user on approve_no" ;;;
        show_admins_votes pending_post false ;;;
        delete_post pending_post ;;;
        ret (None, None, None)
      else if negb (Z.eqb n_reject (-1)) then
        keyboard <- keyboard_of info ;;
        ret (None, Some (update_approve_kb env keyboard pending_post false n_reject), None)
      else ret (None, None, None)
  end.

(** What [vote_callback] does once [set_user_vote] has returned: the
    answer with [REACTION[arg]] and the keyboard. *)
Definition vote_reply (info : CallbackInfo) (arg : string) (publishedPost : PublishedPost)
  (was_added : bool) : M Reply :=
  (if was_added then
     r <- reaction_of arg ;;
     answerCallbackQuery (query_id info) (Some ("Hai messo un " ++ r))
   else
     r <- reaction_of arg ;;
     answerCallbackQuery (query_id info) (Some ("Hai tolto il " ++ r))) ;;;
  keyboard <- keyboard_of info ;;
  tally <- tally_of publishedPost ;;
  ret (None, Some (update_vote_kb env keyboard publishedPost tally), None).

(** The source calls [set_user_vote] on whatever [from_channel] returned. *)
Definition vote_callback (info : CallbackInfo) (arg : string) : M Reply :=
  publishedPost <- from_channel (chat_id info) (message_id info) ;;
  match publishedPost with
  | None => raise AttributeError
  | Some publishedPost =>
      was_added <- set_user_vote publishedPost (sender_id info) arg ;;
      vote_reply info arg publishedPost was_added
  end.

Definition report_spot_callback (info : CallbackInfo) (args : string) : M Reply :=
  abusive_message_id <-
    match reply_to_message info with
    | Some m => ret (msg_id m)
    | None => raise TypeError
    end ;;
  report <- get_post_report (sender_id info) (cfg_channel_id env) abusive_message_id ;;
  if (report : bool) then
    answerCallbackQuery (query_id info) (Some "Hai già segnalato questo spot.") ;;;
    ret (None, None, Some STATE_end)
  else
    answerCallbackQuery (query_id info) (Some "Segnala in privato tramite il bot.") ;;;
    forward_message (sender_id info) (chat_id info) abusive_message_id ;;;
    send_message (sender_id info)
      "Scrivi il motivo della segnalazione del post, altrimenti digita /cancel" ;;;
    set_user_data (sender_id info) abusive_message_id ;;;
    ret (None, None, Some STATE_reporting_spot).

(** *** Handlers reached through [stats_callback] *)

Definition avg_callback (arg : string) : M (option string) :=
  if String.eqb arg "votes" then
    let avg_votes := get_avg env None in
    ret (Some ("Gli spot ricevono in media " ++ avg_votes ++ " voti"))
  else
    let avg_votes := get_avg env (Some arg) in
    r <- reaction_of arg ;;
    ret (Some ("Gli spot ricevono in media " ++ avg_votes ++ " " ++ r)).

Definition max_callback (arg : string) : M (option string) :=
  if String.eqb arg "votes" then
    let '(max_votes, message_id, channel_id) := get_max_id env None in
    ret (Some ("Lo spot con più voti ne ha " ++ max_votes ++ String "010" ""
               ++ "Lo trovi a questo link: https://t.me/c/"
               ++ drop_prefix 4 channel_id ++ "/" ++ message_id))
  else
    let '(max_votes, message_id, channel_id) := get_max_id env (Some arg) in
    r <- reaction_of arg ;;
    ret (Some ("Lo spot con più " ++ r ++ " ne ha " ++ max_votes ++ String "010" ""
               ++ "Lo trovi a questo link: https://t.me/c/"
               ++ drop_prefix 4 channel_id ++ "/" ++ message_id)).

Definition tot_callback (arg : string) : M (option string) :=
  if String.eqb arg "posts" then
    let n_posts := get_n_posts env in
    ret (Some ("Sono stati pubblicati " ++ n_posts ++ " spot nel canale fin'ora."
               ++ String "010" "" ++ "Potresti ampliare questo numero..."))
  else if String.eqb arg "votes" then
    let n_votes := get_n_votes env None in
    ret (Some ("Il totale dei voti ammonta a " ++ n_votes))
  else
    let n_votes := get_n_votes env (Some arg) in
    r <- reaction_of arg ;;
    ret (Some ("Il totale dei " ++ r ++ " ammonta a " ++ n_votes)).

Definition close_callback (arg : string) : M (option string) :=
  ret None.

(** *** Dispatch by name *)

(** The module-level names that end in [_callback]; no other global of
    the module has a name of that form. *)
Inductive Global :=
| G_meme_callback | G_confirm_callback | G_settings_callback
| G_approve_yes_callback | G_approve_no_callback | G_vote_callback
| G_report_spot_callback | G_stats_callback | G_avg_callback
| G_max_callback | G_tot_callback | G_close_callback.

Definition callbacks : list (string * Global) :=
  [ ("meme_callback", G_meme_callback);
    ("confirm_callback", G_confirm_callback);
    ("settings_callback", G_settings_callback);
    ("approve_yes_callback", G_approve_yes_callback);
    ("approve_no_callback", G_approve_no_callback);
    ("vote_callback", G_vote_callback);
    ("report_spot_callback", G_report_spot_callback);
    ("stats_callback", G_stats_callback);
    ("avg_callback", G_avg_callback);
    ("max_callback", G_max_callback);
    ("tot_callback", G_tot_callback);
    ("close_callback", G_close_callback) ].

(** [globals()[name]] *)
Definition globals (name : string) : M Global :=
  match List.find (fun entry => String.eqb entry.1 name) callbacks with
  | Some entry => ret entry.2
  | None => raise (KeyError name)
  end.

(** [data[i]] *)
Definition item (l : list string) (i : nat) : M string :=
  match l !! i with
  | Some x => ret x
  | None => raise IndexError
  end.

(** [f(info, arg)].  The two routers take (update, context) and read
    the callback query of their first argument, which a dictionary does
    not have; the statistics handlers take one argument. *)
Definition call2 (f : Global) (info : CallbackInfo) (arg : string) : M Reply :=
  match f with
  | G_confirm_callback => confirm_callback info arg
  | G_settings_callback => settings_callback info arg
  | G_approve_yes_callback => approve_yes_callback info arg
  | G_approve_no_callback => approve_no_callback info arg
  | G_vote_callback => vote_callback info arg
  | G_report_spot_callback => report_spot_callback info arg
  | G_meme_callback | G_stats_callback => raise AttributeError
  | G_avg_callback | G_max_callback | G_tot_callback | G_close_callback =>
      raise TypeError
  end.

(** [f(arg)] *)
Definition call1 (f : Global) (arg : string) : M (option string) :=
  match f with
  | G_avg_callback => avg_callback arg
  | G_max_callback => max_callback arg
  | G_tot_callback => tot_callback arg
  | G_close_callback => close_callback arg
  | _ => raise TypeError
  end.

(** The token after the legacy adapter, cut at the commas. *)
Definition decode (token : string) : list string :=
  split_comma (old_reactions token).

(** [meme_callback], from the dictionary that [get_callback_info]
    built.  Python evaluates the callee, then the arguments, then calls. *)
Definition meme_callback (info0 : CallbackInfo) : M (option ConvState) :=
  let info := with_data info0 (old_reactions (data info0)) in
  let data := split_comma (data info) in
  reply <-
    try_except
      (data0 <- item data 0 ;;
       f <- globals (drop_prefix 5 data0 ++ "_callback") ;;
       data1 <- item data 1 ;;
       call2 f info data1)
      (fun e =>
         match e with
         | KeyError _ =>
             Some (emit (LogError "meme_callback" e) ;;; ret (None, None, None))
         | _ => None
         end) ;;
  let '(message_text, reply_markup, output) := (reply : Reply) in
  (match message_text, reply_markup with
   | Some (String c text), _ =>
       edit_message_text (chat_id info) (message_id info) (String c text) reply_markup
   | _, Some markup =>
       edit_message_reply_markup (chat_id info) (message_id info) (Some markup)
   | _, None => ret tt
   end) ;;;
  ret output.

Definition stats_callback (info : CallbackInfo) : M unit :=
  answerCallbackQuery (query_id info) None ;;;
  let data := split_comma (data info) in
  result <-
    try_except
      (data0 <- item data 0 ;;
       f <- globals (drop_prefix 6 data0 ++ "_callback") ;;
       data1 <- item data 1 ;;
       message_text <- call1 f data1 ;;
       ret (Some message_text))
      (fun e =>
         match e with
         | KeyError _ => Some (emit (LogError "stats_callback" e) ;;; ret None)
         | _ => None
         end) ;;
  match (result : option (option string)) with
  | None => ret tt
  | Some (Some (String c text)) =>
      edit_message_text (chat_id info) (message_id info) (String c text)
        (Some (get_stats_kb env))
  | Some _ =>
      edit_message_reply_markup (chat_id info) (message_id info) None
  end.
End Handlers.

(** ** Two runs of [approve_yes_callback] that overlap

    The handler takes no lock and opens no transaction: its calls to the
    store and to Telegram are separate statements.  The program points
    between them are the places where another run of the handler can be
    scheduled. *)

Inductive ApprovePc :=
| AtLoad
| AtVote (pending_post : PendingPost)
| AtThreshold (pending_post : PendingPost) (n_approve : Z)
| AtCredit (pending_post : PendingPost) (published_post : option (Z * Z))
| AtNotify (pending_post : PendingPost)
| AtShow (pending_post : PendingPost)
| AtDelete (pending_post : PendingPost)
| Finished (r : Res Reply).

Definition goto {A} (m : M A) (next : A -> ApprovePc) : World -> ApprovePc * World :=
  fun w =>
    match m w with
    | (Ok a, w') => (next a, w')
    | (Raise e, w') => (Finished (Raise e), w')
    end.

Section Interleaving.
Variable env : Env.

(** One statement of [approve_yes_callback] run for [info]. *)
Definition approve_yes_step (info : CallbackInfo) (pc : ApprovePc)
  : World -> ApprovePc * World :=
  match pc with
  | AtLoad =>
      goto (from_group (chat_id info) (message_id info))
        (fun pending_post =>
           match pending_post with
           | None => Finished (Ok (None, None, None))
           | Some pending_post => AtVote pending_post
           end)
  | AtVote pending_post =>
      goto (answerCallbackQuery (query_id info) None ;;;
            set_admin_vote pending_post (sender_id info) true)
        (AtThreshold pending_post)
  | AtThreshold pending_post n_approve =>
      if Z.geb n_approve (n_votes env) then
        goto (send_post_to env (Some (message info)) DestChannel)
          (AtCredit pending_post)
      else if negb (Z.eqb n_approve (-1)) then
        goto (keyboard_of info)
          (fun keyboard =>
             Finished (Ok (None,
               Some (update_approve_kb env keyboard pending_post true n_approve),
               None)))
      else goto (ret tt) (fun _ => Finished (Ok (None, None, None)))
  | AtCredit pending_post published_post =>
      goto (if comments env then
              match published_post with
              | Some key => set_bot_data key (user_id pending_post)
              | None => raise AttributeError
              end
            else ret tt)
        (fun _ => AtNotify pending_post)
  | AtNotify pending_post =>
      goto (notify_user env (user_id pending_post)
              "Il tuo ultimo post è stato pubblicato su @Spotted_DMI"
              "Notifying the user on approve_yes")
        (fun _ => AtShow pending_post)
  | AtShow pending_post =>
      goto (show_admins_votes pending_post true) (fun _ => AtDelete pending_post)
  | AtDelete pending_post =>
      goto (delete_post pending_post) (fun _ => Finished (Ok (None, None, None)))
  | Finished r => fun w => (Finished r, w)
  end.

(** A run on its own: [fuel] statements, one after the other. *)
Fixpoint approve_yes_steps (fuel : nat) (info : CallbackInfo) (pc : ApprovePc)
  (w : World) : ApprovePc * World :=
  match fuel with
  | O => (pc, w)
  | S fuel' =>
      let '(pc', w') := approve_yes_step info pc w in
      approve_yes_steps fuel' info pc' w'
  end.

(** Two runs under a schedule: [true] lets the first run execute its
    next statement, [false] the second. *)
Fixpoint interleave (infoA infoB : CallbackInfo) (schedule : list bool)
  (pcA pcB : ApprovePc) (w : World) : ApprovePc * ApprovePc * World :=
  match schedule with
  | [] => (pcA, pcB, w)
  | true :: rest =>
      let '(pcA', w') := approve_yes_step infoA pcA w in
      interleave infoA infoB rest pcA' pcB w'
  | false :: rest =>
      let '(pcB', w') := approve_yes_step infoB pcB w in
      interleave infoA infoB rest pcA pcB' w'
  end.
End Interleaving.

(** ** Reading a trace *)

Definition is_promotion (e : Event) : bool :=
  match e with SendPostToChannel _ _ => true | _ => false end.

Definition is_deletion (e : Event) : bool :=
  match e with DeletePost _ _ => true | _ => false end.

Definition is_edit (e : Event) : bool :=
  match e with
  | EditMessageText _ _ _ _ | EditMessageReplyMarkup _ _ _ => true
  | _ => false
  end.

Definition is_notification (e : Event) : bool :=
  match e with SendMessage _ _ | ForwardMessage _ _ _ => true | _ => false end.

Definition count_events (f : Event -> bool) (tr : list Event) : nat :=
  List.length (List.filter f tr).

(** The world with some more events issued. *)
Definition and_then (w : World) (events : list Event) : World :=
  {| pending := pending w; published := published w; reports := reports w;
     credited := credited w; bot_data := bot_data w; user_data := user_data w;
     next_message_id := next_message_id w; trace := trace w ++ events |}.

(** Two worlds with the same store: everything but the trace. *)
Definition same_store (w1 w2 : World) : Prop :=
  pending w1 = pending w2 /\ published w1 = published w2 /\
  reports w1 = reports w2 /\ credited w1 = credited w2 /\
  bot_data w1 = bot_data w2 /\ user_data w1 = user_data w2 /\
  next_message_id w1 = next_message_id w2.

(** The event that the notification of the submitter leaves when the
    handler goes on: the message, or the warning for an error that it
    catches. *)
Definition notification (env : Env) (chat : Z) (text where_ : string) : Event :=
  match deliver env chat with
  | None => SendMessage chat text
  | Some e => LogWarning where_ e
  end.

(** The error with which a notification of [chat] leaves the handler:
    one that [except (BadRequest, Unauthorized)] does not catch. *)
Definition uncaught (env : Env) (chat : Z) : option TelegramError :=
  match deliver env chat with
  | Some e => if caught e then None else Some e
  | None => None
  end.

(** The same environment in which every chat can be reached. *)
Definition reachable (env : Env) : Env :=
  {| n_votes := n_votes env; comments := comments env;
     cfg_channel_id := cfg_channel_id env; cfg_group_id := cfg_group_id env;
     REACTION := REACTION env; update_approve_kb := update_approve_kb env;
     update_vote_kb := update_vote_kb env; get_stats_kb := get_stats_kb env;
     deliver := fun _ => None;
     get_avg := get_avg env; get_max_id := get_max_id env;
     get_n_posts := get_n_posts env; get_n_votes := get_n_votes env |}.

(** A sequence of reactions (voter, category) on one post; a call that
    raises leaves the store as it was. *)
Fixpoint cast_user_votes (env : Env) (p : PublishedPost) (calls : list (Z * string))
  (w : World) : World :=
  match calls with
  | [] => w
  | (voter, category) :: rest =>
      cast_user_votes env p rest (set_user_vote env p voter category w).2
  end.

(** The invariant of the Reaction Tally, for every post of the store. *)
Definition tallies_ok (w : World) : Prop :=
  forall key tally, published w !! key = Some tally -> one_row_each tally.

(** The invariant of the Approval Engine: a post that is still pending has
    fewer approvals and fewer rejections than the quorum. *)
Definition below_quorum (env : Env) (w : World) : Prop :=
  forall key r approve,
    pending w !! key = Some r ->
    Z.of_nat (count_votes (admin_votes r) approve) < n_votes env.

(** The store once the vote of an admin is written to the record [r]. *)
Definition store_vote (w : World) (key : Z * Z) (r : PendingRecord)
  (votes : list (Z * bool)) : World :=
  {| pending := <[key := {| submitter := submitter r; admin_votes := votes |}]> (pending w);
     published := published w; reports := reports w; credited := credited w;
     bot_data := bot_data w; user_data := user_data w;
     next_message_id := next_message_id w; trace := trace w |}.

(** The store once a pending post is promoted: the published post is
    created in the channel under a fresh message id, the submitter is
    noted for the credit when comments are enabled, and the pending post is
    removed. *)
Definition promote (env : Env) (w : World) (key : Z * Z) (user : Z) : World :=
  {| pending := delete key (pending w);
     published := <[(cfg_channel_id env, next_message_id w) := []]> (published w);
     reports := reports w; credited := credited w;
     bot_data :=
       if comments env
       then <[(cfg_channel_id env, next_message_id w) := user]> (bot_data w)
       else bot_data w;
     user_data := user_data w;
     next_message_id := next_message_id w + 1; trace := trace w |}.

(** The store once the post is in the channel and the pending post is
    still there: what a run leaves that stops before [delete_post]. *)
Definition publish (env : Env) (w : World) (user : Z) : World :=
  {| pending := pending w;
     published := <[(cfg_channel_id env, next_message_id w) := []]> (published w);
     reports := reports w; credited := credited w;
     bot_data :=
       if comments env
       then <[(cfg_channel_id env, next_message_id w) := user]> (bot_data w)
       else bot_data w;
     user_data := user_data w;
     next_message_id := next_message_id w + 1; trace := trace w |}.

(** The store once the reactions of a post are written. *)
Definition store_tally (w : World) (key : Z * Z) (tally : Tally) : World :=
  {| pending := pending w; published := <[key := tally]> (published w);
     reports := reports w; credited := credited w; bot_data := bot_data w;
     user_data := user_data w; next_message_id := next_message_id w;
     trace := trace w |}.

(** The store once a pending post is rejected: the pending post is removed. *)
Definition reject (w : World) (key : Z * Z) : World :=
  {| pending := delete key (pending w);
     published := published w; reports := reports w; credited := credited w;
     bot_data := bot_data w; user_data := user_data w;
     next_message_id := next_message_id w; trace := trace w |}.

(** Modelled from the spec: the Report record is created by the step of
    the conversation that receives the reason ([Report.create], not in the
    source file). *)
Definition create_report (user channel msg : Z) : M unit :=
  fun w =>
    (Ok tt,
     {| pending := pending w; published := published w;
        reports := {[ (user, channel, msg) ]} ∪ reports w;
        credited := credited w; bot_data := bot_data w;
        user_data := user_data w; next_message_id := next_message_id w;
        trace := trace w |}).

(** *** Progress and invariant of two overlapping runs *)

(** Statements that a run still has to execute, at most. *)
Definition pc_rank (pc : ApprovePc) : nat :=
  match pc with
  | AtLoad => 7 | AtVote _ => 6 | AtThreshold _ _ => 5 | AtCredit _ _ => 4
  | AtNotify _ => 3 | AtShow _ => 2 | AtDelete _ => 1 | Finished _ => 0
  end.

(** A run that has not cast its vote yet. *)
Definition waiting (post : PendingPost) (pc : ApprovePc) : Prop :=
  pc = AtLoad \/ pc = AtVote post.

(** A run whose vote was the first approval: it is below the quorum and
    returns without touching the store. *)
Definition voted_first (post : PendingPost) (pc : ApprovePc) : Prop :=
  pc = AtThreshold post 1 \/ exists r, pc = Finished r.

(** Promotions and deletions issued so far. *)
Definition counts (w : World) (promotions deletions : nat) : Prop :=
  count_events is_promotion (trace w) = promotions /\
  count_events is_deletion (trace w) = deletions.

(** The post is in the store, with a well-formed votes table and this
    number of approvals. *)
Definition stored (w : World) (post : PendingPost) (approvals : nat) : Prop :=
  exists r,
    pending w !! pending_key post = Some r /\ submitter r = user_id post /\
    one_row_each (admin_votes r) /\ count_votes (admin_votes r) true = approvals.

(** The post is in the store and its only approval is the one of [admin]. *)
Definition one_approval (w : World) (post : PendingPost) (admin : Z) : Prop :=
  exists r,
    pending w !! pending_key post = Some r /\ submitter r = user_id post /\
    one_row_each (admin_votes r) /\ count_votes (admin_votes r) true = 1%nat /\
    row_of (admin_votes r) admin = Some true.

(** A run whose vote was the second approval, on its way through the
    promotion. *)
Definition promoting (post : PendingPost) (pc : ApprovePc) (w : World) (p0 d0 : nat) : Prop :=
  (pc = AtThreshold post 2 /\ counts w p0 d0) \/
  (((exists key, pc = AtCredit post (Some key)) \/ pc = AtNotify post \/
    pc = AtShow post \/ pc = AtDelete post) /\ counts w (S p0) d0) \/
  ((exists r, pc = Finished r) /\ pending w !! pending_key post = None /\
   counts w (S p0) (S d0)).

(** The invariant of two runs on a post that had no approval: nobody has
    voted, or one run has cast the first approval and the other has not
    voted, or one has cast the first and the other is promoting. *)
Definition race_inv (post : PendingPost) (a b : Z) (p0 d0 : nat)
  (pcA pcB : ApprovePc) (w : World) : Prop :=
  (waiting post pcA /\ waiting post pcB /\ stored w post 0 /\ counts w p0 d0) \/
  (voted_first post pcA /\ waiting post pcB /\ one_approval w post a /\ counts w p0 d0) \/
  (voted_first post pcB /\ waiting post pcA /\ one_approval w post b /\ counts w p0 d0) \/
  (voted_first post pcA /\ promoting post pcB w p0 d0) \/
  (voted_first post pcB /\ promoting post pcA w p0 d0).

(** ** What a call keeps

    A handler only ever adds to the trace, and most handlers leave most of
    the store alone.  [keeps R m] says that every run of [m], whether it
    returns or raises, takes a world to one that is [R]-related to it. *)

Definition keeps {A} (R : relation World) (m : M A) : Prop :=
  forall w, R w (m w).2.

(** Every exception that leaves [m] satisfies [P]. *)
Definition raises_only {A} (P : exn -> Prop) (m : M A) : Prop :=
  forall w e, (m w).1 = Raise e -> P e.

(** The worlds agree on one field of the store. *)
Definition same {B} (field : World -> B) (w w' : World) : Prop :=
  field w' = field w.

(** The later world satisfies an invariant when the earlier one did. *)
Definition keeps_invariant (P : World -> Prop) (w w' : World) : Prop :=
  P w -> P w'.

(** The message that an edit is applied to. *)
Definition edit_target (e : Event) : option (Z * Z) :=
  match e with
  | EditMessageText chat msg _ _ | EditMessageReplyMarkup chat msg _ => Some (chat, msg)
  | _ => None
  end.

(** The later world has more events, none of which edits a message. *)
Definition no_edit (w w' : World) : Prop :=
  exists events,
    trace w' = (trace w ++ events)%list /\ Forall (fun e => is_edit e = false) events.

(** The later world has more events, at most [n] of which answer a
    callback query. *)
Definition is_answer (e : Event) : bool :=
  match e with AnswerCallbackQuery _ _ => true | _ => false end.

Definition answers (n : nat) (w w' : World) : Prop :=
  exists events,
    trace w' = (trace w ++ events)%list /\ (count_events is_answer events <= n)%nat.

(** [",".join(pieces)], the inverse of [split_comma]: a token is a
    command, a comma and an argument. *)
Fixpoint join_comma (pieces : list string) : string :=
  match pieces with
  | [] => ""
  | [piece] => piece
  | piece :: rest => piece ++ "," ++ join_comma rest
  end.

(** ** Concrete inputs *)

Definition ex_env : Env :=
  {| n_votes := 2; comments := true;
     cfg_channel_id := -1001; cfg_group_id := -2002;
     REACTION := list_to_map [("0", "👎"); ("1", "👍")];
     update_approve_kb := fun keyboard _ approve n =>
       InlineKeyboardMarkup
         ([(if approve then "approve" else "reject", "")] :: keyboard);
     update_vote_kb := fun keyboard _ _ => InlineKeyboardMarkup keyboard;
     get_stats_kb := InlineKeyboardMarkup [];
     deliver := fun _ => None;
     get_avg := fun _ => "0"; get_max_id := fun _ => ("0", "0", "-1001001");
     get_n_posts := "0"; get_n_votes := fun _ => "0" |}.

(** The same, where the submitter 50 has blocked the bot. *)
Definition ex_env_blocked : Env :=
  {| n_votes := 2; comments := true;
     cfg_channel_id := -1001; cfg_group_id := -2002;
     REACTION := REACTION ex_env;
     update_approve_kb := update_approve_kb ex_env;
     update_vote_kb := update_vote_kb ex_env;
     get_stats_kb := get_stats_kb ex_env;
     deliver := fun chat => if Z.eqb chat 50 then Some Unauthorized else None;
     get_avg := get_avg ex_env; get_max_id := get_max_id ex_env;
     get_n_posts := get_n_posts ex_env; get_n_votes := get_n_votes ex_env |}.

(** The same, where the call that notifies the submitter 50 times out. *)
Definition ex_env_timeout : Env :=
  {| n_votes := 2; comments := true;
     cfg_channel_id := -1001; cfg_group_id := -2002;
     REACTION := REACTION ex_env;
     update_approve_kb := update_approve_kb ex_env;
     update_vote_kb := update_vote_kb ex_env;
     get_stats_kb := get_stats_kb ex_env;
     deliver := fun chat => if Z.eqb chat 50 then Some TimedOut else None;
     get_avg := get_avg ex_env; get_max_id := get_max_id ex_env;
     get_n_posts := get_n_posts ex_env; get_n_votes := get_n_votes ex_env |}.

Definition ex_world (votes : list (Z * bool)) (reactions : option Tally) : World :=
  {| pending := {[ (-2002, 7) := {| submitter := 50; admin_votes := votes |} ]};
     published :=
       match reactions with
       | Some tally => {[ (-1001, 9) := tally ]}
       | None => ∅
       end;
     reports := ∅; credited := ∅; bot_data := ∅; user_data := ∅;
     next_message_id := 1000; trace := [] |}.

Definition ex_empty_world : World :=
  {| pending := ∅; published := ∅; reports := ∅; credited := ∅;
     bot_data := ∅; user_data := ∅; next_message_id := 1000; trace := [] |}.

(** A callback query of [sender] on message [msg] of chat [chat]. *)
Definition ex_info (token : string) (chat msg sender : Z) : CallbackInfo :=
  {| data := token; chat_id := chat; message_id := msg; sender_id := sender;
     sender_username := None; query_id := 1;
     message := {| msg_id := msg; msg_from := 0; msg_allowed := true |};
     reply_to_message := Some {| msg_id := 9; msg_from := 0; msg_allowed := true |};
     reply_markup := Some (InlineKeyboardMarkup []) |}.

(** * Properties *)

(** ** Running the monad *)

Lemma emit_and_then (e : Event) (w : World) : emit e w = (Ok tt, and_then w [e]).
Proof. reflexivity. Qed.

Lemma and_then_app (w : World) (a b : list Event) :
  and_then (and_then w a) b = and_then w (a ++ b).
Proof. unfold and_then; simpl. by rewrite <- app_assoc. Qed.

Lemma and_then_nil (w : World) : and_then w [] = w.
Proof. destruct w; unfold and_then; simpl. by rewrite app_nil_r. Qed.

Lemma and_then_unfold (w : World) (l : list Event) :
  and_then w l =
  {| pending := pending w; published := published w; reports := reports w;
     credited := credited w; bot_data := bot_data w; user_data := user_data w;
     next_message_id := next_message_id w; trace := trace w ++ l |}.
Proof. reflexivity. Qed.

Lemma world_ext (w1 w2 : World) :
  pending w1 = pending w2 -> published w1 = published w2 ->
  reports w1 = reports w2 -> credited w1 = credited w2 ->
  bot_data w1 = bot_data w2 -> user_data w1 = user_data w2 ->
  next_message_id w1 = next_message_id w2 -> trace w1 = trace w2 ->
  w1 = w2.
Proof. destruct w1, w2; simpl; intros; by subst. Qed.

Lemma pending_and_then w l : pending (and_then w l) = pending w.
Proof. reflexivity. Qed.
Lemma published_and_then w l : published (and_then w l) = published w.
Proof. reflexivity. Qed.
Lemma reports_and_then w l : reports (and_then w l) = reports w.
Proof. reflexivity. Qed.
Lemma trace_and_then w l : trace (and_then w l) = (trace w ++ l)%list.
Proof. reflexivity. Qed.
Lemma next_message_id_and_then w l : next_message_id (and_then w l) = next_message_id w.
Proof. reflexivity. Qed.

Opaque emit.

Ltac run :=
  repeat (progress (
    unfold bind, ret, raise, try_except, get_world, goto,
      answerCallbackQuery, forward_message, edit_message_text,
      edit_message_reply_markup, item;
    simpl;
    rewrite ?emit_and_then, ?and_then_app;
    simpl)).

(** ** Tokens *)

Lemma split_comma_cons (s : string) :
  exists piece pieces, split_comma s = piece :: pieces.
Proof.
  induction s as [|c rest IH]; cbn [split_comma].
  - eauto.
  - destruct (Ascii.eqb c ","); [eauto|].
    destruct IH as (piece & pieces & ->). eauto.
Qed.

Lemma split_comma_without (s : string) :
  has_comma s = false -> split_comma s = [s].
Proof.
  unfold has_comma.
  induction s as [|c rest IH]; cbn [split_comma list_ascii_of_string existsb]; [done|].
  destruct (Ascii.eqb c ","); simpl; [done|].
  intros H. by rewrite (IH H).
Qed.

Lemma split_comma_with (s : string) :
  has_comma s = true ->
  exists command argument rest, split_comma s = command :: argument :: rest.
Proof.
  unfold has_comma.
  induction s as [|c rest IH]; cbn [split_comma list_ascii_of_string existsb]; [done|].
  destruct (Ascii.eqb c ","); simpl.
  - intros _. destruct (split_comma_cons rest) as (piece & pieces & ->). eauto.
  - intros H. destruct (IH H) as (command & argument & pieces & ->). eauto.
Qed.

Arguments globals : simpl never.
Arguments drop_prefix : simpl never.
Arguments old_reactions : simpl never.
Arguments split_comma : simpl never.
Arguments String.append : simpl never.

Lemma globals_find (name : string) (w : World) :
  globals name w =
  match List.find (fun entry => String.eqb entry.1 name) callbacks with
  | Some entry => (Ok entry.2, w)
  | None => (Raise (KeyError name), w)
  end.
Proof. unfold globals. by destruct (List.find _ callbacks). Qed.

Lemma old_reactions_fixed (s : string) :
  old_reactions (old_reactions s) = old_reactions s.
Proof.
  unfold old_reactions.
  destruct (String.eqb s "meme_vote_yes") eqn:Hyes; [reflexivity|].
  destruct (String.eqb s "meme_vote_no") eqn:Hno; [reflexivity|].
  by rewrite Hyes, Hno.
Qed.

(** C10 (as amended): the argument may be empty but its comma may not be
    left out.  A token with a comma decodes to a command and an argument;
    a token without one decodes to the single piece that is the token, and
    a router then raises [IndexError] at [data[1]] when the command names
    a function of the module, and logs the [KeyError] when it does not. *)
Theorem comma_less_token (env : Env) (info : CallbackInfo) (w : World) :
  let token := old_reactions (data info) in
  let meme_name := drop_prefix 5 token ++ "_callback" in
  let stats_name := drop_prefix 6 (data info) ++ "_callback" in
  (has_comma token = true ->
   exists command argument rest, decode (data info) = command :: argument :: rest) /\
  (has_comma token = false ->
   decode (data info) = [token] /\
   match List.find (fun entry => String.eqb entry.1 meme_name) callbacks with
   | Some _ => meme_callback env info w = (Raise IndexError, w)
   | None =>
       meme_callback env info w =
       (Ok None, and_then w [LogError "meme_callback" (KeyError meme_name)])
   end) /\
  (has_comma (data info) = false ->
   match List.find (fun entry => String.eqb entry.1 stats_name) callbacks with
   | Some _ =>
       stats_callback env info w =
       (Raise IndexError, and_then w [AnswerCallbackQuery (query_id info) None])
   | None =>
       stats_callback env info w =
       (Ok tt, and_then w [AnswerCallbackQuery (query_id info) None;
                           LogError "stats_callback" (KeyError stats_name)])
   end).
Proof.
  intros token meme_name stats_name. split; [|split].
  - intros H. unfold decode. by apply split_comma_with.
  - intros H. unfold decode. fold token. rewrite (split_comma_without _ H).
    split; [reflexivity|].
    destruct (List.find _ callbacks) as [entry|] eqn:Hfind;
      unfold meme_callback; cbn [data with_data]; fold token;
      rewrite (split_comma_without _ H); run; fold meme_name;
      rewrite globals_find, Hfind; run; reflexivity.
  - intros H.
    destruct (List.find _ callbacks) as [entry|] eqn:Hfind;
      unfold stats_callback; rewrite (split_comma_without _ H); run;
      fold stats_name; rewrite globals_find, Hfind; run; reflexivity.
Qed.

Lemma comma_less_token_witness :
  meme_callback ex_env (ex_info "meme_approve_yes" (-2002) 7 2) (ex_world [] None)
  = (Raise IndexError, ex_world [] None).
Proof.
  pose proof (comma_less_token ex_env (ex_info "meme_approve_yes" (-2002) 7 2)
                (ex_world [] None)) as (_ & H & _).
  apply H. reflexivity.
Defined.

(** C10 (as stated) fails: the token [meme_approve_yes] has no comma and
    names a handler, and [meme_callback] raises [IndexError]; so does
    [stats_callback] on [stats_close]. *)
Lemma comma_less_token_raises :
  has_comma (old_reactions "meme_approve_yes") = false /\
  (meme_callback ex_env (ex_info "meme_approve_yes" (-2002) 7 2) (ex_world [] None)).1
  = Raise IndexError /\
  has_comma "stats_close" = false /\
  (stats_callback ex_env (ex_info "stats_close" (-2002) 7 2) (ex_world [] None)).1
  = Raise IndexError.
Proof. repeat split; reflexivity. Qed.

Lemma meme_callback_decoded (info : CallbackInfo) :
  split_comma (data (with_data info (old_reactions (data info)))) = decode (data info).
Proof. reflexivity. Qed.

(** [meme_callback] on a token with a command that names a function of
    the module and an argument: the call, and then what the router does
    with the reply or the exception. *)
Lemma meme_callback_dispatch (env : Env) (info : CallbackInfo) (w : World)
    (command arg : string) (rest : list string) (entry : string * Global) :
  decode (data info) = command :: arg :: rest ->
  List.find (fun entry => String.eqb entry.1 (drop_prefix 5 command ++ "_callback"))
    callbacks = Some entry ->
  meme_callback env info w =
  let info' := with_data info (old_reactions (data info)) in
  match call2 env entry.2 info' arg w with
  | (Ok (Some (String c text), markup, out), w') =>
      (Ok out, and_then w' [EditMessageText (chat_id info) (message_id info)
                              (String c text) markup])
  | (Ok (_, Some markup, out), w') =>
      (Ok out, and_then w' [EditMessageReplyMarkup (chat_id info) (message_id info)
                              (Some markup)])
  | (Ok (_, None, out), w') => (Ok out, w')
  | (Raise (KeyError k), w') =>
      (Ok None, and_then w' [LogError "meme_callback" (KeyError k)])
  | (Raise e, w') => (Raise e, w')
  end.
Proof.
  intros Hdecode Hfind. unfold meme_callback.
  rewrite meme_callback_decoded, Hdecode. run. rewrite globals_find, Hfind. run.
  destruct (call2 _ _ _ _ w) as [[[[text markup] out]|e] w1].
  - destruct text as [[|c text]|], markup as [markup|]; run; reflexivity.
  - destruct e; run; reflexivity.
Qed.

(** C9: the legacy adapter rewrites the two deprecated spellings and is
    the identity on every other token.  [meme_callback] applies it before
    it splits the token: the deprecated spellings have no comma, and what
    the router cuts into a command and an argument, looks up and calls is
    the rewritten token, which is also the token that the handler finds in
    [info].  So a deprecated spelling reaches [vote_callback] with the
    category 1 or 0, and a raw token is handled as its rewritten form. *)
Theorem old_reactions_legacy_tokens :
  old_reactions "meme_vote_yes" = "meme_vote,1" /\
  old_reactions "meme_vote_no" = "meme_vote,0" /\
  (forall s, s <> "meme_vote_yes" -> s <> "meme_vote_no" -> old_reactions s = s) /\
  (split_comma "meme_vote_yes" = ["meme_vote_yes"] /\
   decode "meme_vote_yes" = ["meme_vote"; "1"] /\
   split_comma "meme_vote_no" = ["meme_vote_no"] /\
   decode "meme_vote_no" = ["meme_vote"; "0"]) /\
  (forall env info w command arg rest entry,
     split_comma (old_reactions (data info)) = command :: arg :: rest ->
     List.find (fun entry => String.eqb entry.1 (drop_prefix 5 command ++ "_callback"))
       callbacks = Some entry ->
     meme_callback env info w =
     match call2 env entry.2 (with_data info (old_reactions (data info))) arg w with
     | (Ok (Some (String c text), markup, out), w') =>
         (Ok out, and_then w' [EditMessageText (chat_id info) (message_id info)
                                 (String c text) markup])
     | (Ok (_, Some markup, out), w') =>
         (Ok out, and_then w' [EditMessageReplyMarkup (chat_id info) (message_id info)
                                 (Some markup)])
     | (Ok (_, None, out), w') => (Ok out, w')
     | (Raise (KeyError k), w') =>
         (Ok None, and_then w' [LogError "meme_callback" (KeyError k)])
     | (Raise e, w') => (Raise e, w')
     end) /\
  (forall env info w,
     meme_callback env info w =
     meme_callback env (with_data info (old_reactions (data info))) w).
Proof.
  split; [reflexivity|]. split; [reflexivity|]. split; [|split; [|split]].
  - intros s Hyes Hno. unfold old_reactions.
    apply String.eqb_neq in Hyes, Hno. by rewrite Hyes, Hno.
  - repeat split; reflexivity.
  - intros env info w command arg rest entry Hsplit Hfind.
    by rewrite (meme_callback_dispatch env info w command arg rest entry Hsplit Hfind).
  - intros env info w. unfold meme_callback.
    cbn [data with_data]. rewrite old_reactions_fixed. reflexivity.
Qed.

Lemma old_reactions_legacy_tokens_witness :
  old_reactions "meme_approve_yes," = "meme_approve_yes," /\
  published (meme_callback ex_env (ex_info "meme_vote_yes" (-1001) 9 3)
               (ex_world [] (Some []))).2 !! (-1001, 9)
  = Some [(3, "1")].
Proof.
  destruct old_reactions_legacy_tokens as (_ & _ & Hother & _ & Hrouted & _).
  split; [apply Hother; discriminate|].
  rewrite (Hrouted ex_env (ex_info "meme_vote_yes" (-1001) 9 3) (ex_world [] (Some []))
             "meme_vote" "1" [] ("vote_callback", G_vote_callback) eq_refl eq_refl).
  reflexivity.
Defined.




(** ** Posts that are not in the store *)

Lemma absent_pending_post (env : Env) (info : CallbackInfo) (arg : string) (w : World) :
  pending w !! (chat_id info, message_id info) = None ->
  approve_yes_callback env info arg w = (Ok (None, None, None), w) /\
  approve_no_callback env info arg w = (Ok (None, None, None), w).
Proof.
  intros Hpost. unfold approve_yes_callback, approve_no_callback, from_group.
  run. rewrite Hpost. split; reflexivity.
Qed.

Lemma absent_published_post (env : Env) (info : CallbackInfo) (arg : string) (w : World) :
  published w !! (chat_id info, message_id info) = None ->
  vote_callback env info arg w = (Raise AttributeError, w).
Proof.
  intros Hpost. unfold vote_callback, from_channel. run.
  rewrite Hpost. reflexivity.
Qed.

(** C5: on a pending post that is not in the store the two admin
    handlers return (None, None, None) and leave the world as it is; on a
    published post that is not in the store [vote_callback] raises
    [AttributeError], which [meme_callback] does not catch. *)
Theorem absent_post (env : Env) (info : CallbackInfo) (arg : string) (w : World) :
  (pending w !! (chat_id info, message_id info) = None ->
   approve_yes_callback env info arg w = (Ok (None, None, None), w) /\
   approve_no_callback env info arg w = (Ok (None, None, None), w)) /\
  (published w !! (chat_id info, message_id info) = None ->
   vote_callback env info arg w = (Raise AttributeError, w) /\
   (forall rest,
      decode (data info) = "meme_vote" :: arg :: rest ->
      meme_callback env info w = (Raise AttributeError, w))).
Proof.
  split; [apply absent_pending_post|].
  intros Hpost. split; [by apply absent_published_post|].
  intros rest Hdecode.
  unfold meme_callback. rewrite meme_callback_decoded, Hdecode. run.
  rewrite absent_published_post by exact Hpost. reflexivity.
Qed.

Lemma absent_post_witness :
  approve_yes_callback ex_env (ex_info "meme_approve_yes," (-2002) 7 1) "" ex_empty_world
  = (Ok (None, None, None), ex_empty_world) /\
  meme_callback ex_env (ex_info "meme_vote,1" (-1001) 9 3) ex_empty_world
  = (Raise AttributeError, ex_empty_world).
Proof.
  split.
  - apply (absent_post ex_env (ex_info "meme_approve_yes," (-2002) 7 1) "" ex_empty_world).
    reflexivity.
  - apply (absent_post ex_env (ex_info "meme_vote,1" (-1001) 9 3) "1" ex_empty_world)
      with (rest := []); reflexivity.
Defined.

(** ** Reports *)

(** C7 (as amended): [report_spot_callback] only probes.  It never writes
    a Report; it answers "already reported" and ends the conversation
    exactly when the record of (reporter, channel, post) is in the store,
    and starts the collection of the reason otherwise.  So the answer
    changes once the follow-up step has created the record, and records of
    other reporters do not change it. *)
Theorem report_spot_callback_probes (env : Env) (info : CallbackInfo) (args : string)
    (w : World) (post : Message) :
  reply_to_message info = Some post ->
  let user := sender_id info in
  let channel := cfg_channel_id env in
  reports (report_spot_callback env info args w).2 = reports w /\
  ((user, channel, msg_id post) ∈ reports w ->
   report_spot_callback env info args w =
   (Ok (None, None, Some STATE_end),
    and_then w [AnswerCallbackQuery (query_id info)
                  (Some "Hai già segnalato questo spot.")])) /\
  ((user, channel, msg_id post) ∉ reports w ->
   deliver env user = None ->
   (report_spot_callback env info args w).1 =
   Ok (None, None, Some STATE_reporting_spot)) /\
  (report_spot_callback env info args (create_report user channel (msg_id post) w).2).1
  = Ok (None, None, Some STATE_end) /\
  (forall other channel' msg',
     other <> user ->
     (report_spot_callback env info args (create_report other channel' msg' w).2).1
     = (report_spot_callback env info args w).1).
Proof.
  intros Hreply user channel.
  assert (Hrun : forall w0,
    reports (report_spot_callback env info args w0).2 = reports w0 /\
    ((user, channel, msg_id post) ∈ reports w0 ->
     report_spot_callback env info args w0 =
     (Ok (None, None, Some STATE_end),
      and_then w0 [AnswerCallbackQuery (query_id info)
                     (Some "Hai già segnalato questo spot.")])) /\
    ((user, channel, msg_id post) ∉ reports w0 ->
     (report_spot_callback env info args w0).1 =
     match deliver env user with
     | None => Ok (None, None, Some STATE_reporting_spot)
     | Some e => Raise (TelegramErr e)
     end)).
  { intros w0. unfold report_spot_callback, get_post_report. rewrite Hreply. run.
    fold user channel. case_bool_decide as Hin.
    - run. split; [reflexivity|]. split; [reflexivity|]. done.
    - run. unfold send_message. fold user.
      destruct (deliver env user) as [e|]; run;
        (split; [reflexivity|]); (split; [done|]); reflexivity. }
  destruct (Hrun w) as (Hsame & Hin & Hout).
  split; [exact Hsame|]. split; [exact Hin|]. split.
  - intros Hnot Hdeliver. rewrite (Hout Hnot), Hdeliver. reflexivity.
  - split.
    + destruct (Hrun (create_report user channel (msg_id post) w).2) as (_ & Hin' & _).
      rewrite Hin'; [reflexivity|]. simpl.
      apply elem_of_union_l, elem_of_singleton. reflexivity.
    + intros other channel' msg' Hother.
      destruct (decide ((user, channel, msg_id post) ∈ reports w)) as [Hyes|Hno].
      * destruct (Hrun (create_report other channel' msg' w).2) as (_ & Hin' & _).
        rewrite Hin', Hin; [reflexivity|exact Hyes|]. simpl.
        by apply elem_of_union_r.
      * destruct (Hrun (create_report other channel' msg' w).2) as (_ & _ & Hout').
        rewrite Hout', Hout; [reflexivity|exact Hno|].
        simpl. intros [Heq|Hold]%elem_of_union; [|done].
        apply elem_of_singleton in Heq. congruence.
Qed.

Lemma report_spot_callback_probes_witness :
  (report_spot_callback ex_env (ex_info "meme_report_spot," (-1001) 12 3) ""
     ex_empty_world).1
  = Ok (None, None, Some STATE_reporting_spot).
Proof.
  pose proof (report_spot_callback_probes ex_env
                (ex_info "meme_report_spot," (-1001) 12 3) "" ex_empty_world
                {| msg_id := 9; msg_from := 0; msg_allowed := true |} eq_refl)
    as (_ & _ & H & _).
  apply H; [apply not_elem_of_empty|reflexivity].
Defined.

(** C7 (as stated) fails: the same reporter asks twice to report the same
    post, and the second call answers as the first, since no record was
    written; the [file_report] of the specification answers [true]. *)
Lemma report_twice_asks_twice :
  let info := ex_info "meme_report_spot," (-1001) 12 3 in
  let first := report_spot_callback ex_env info "" ex_empty_world in
  let second := report_spot_callback ex_env info "" first.2 in
  first.1 = Ok (None, None, Some STATE_reporting_spot) /\
  second.1 = Ok (None, None, Some STATE_reporting_spot) /\
  reports second.2 = ∅ /\
  (file_report (file_report ∅ 3 (-1001) 9).1 3 (-1001) 9).2 = true.
Proof. repeat split; reflexivity. Qed.

(** ** Votes tables *)

Section RowsFacts.
Context {V : Type} `{EqDecision V}.
Implicit Types (rows : list (Z * V)) (k : Z) (v : V).

Lemma row_of_cons rows (r : Z * V) k :
  row_of (r :: rows) k = if bool_decide (r.1 = k) then Some r.2 else row_of rows k.
Proof. unfold row_of. simpl. by destruct (bool_decide (r.1 = k)). Qed.

Lemma count_votes_cons rows (r : Z * V) v :
  count_votes (r :: rows) v =
  ((if bool_decide (r.2 = v) then 1 else 0) + count_votes rows v)%nat.
Proof. unfold count_votes. simpl. by destruct (bool_decide (r.2 = v)). Qed.

Lemma row_of_update rows k v v0 :
  row_of rows k = Some v0 -> row_of (update_rows rows k v) k = Some v.
Proof.
  induction rows as [|r rows IH]; [done|].
  rewrite row_of_cons. unfold update_rows in *. simpl.
  case_bool_decide as Hk.
  - intros _. rewrite row_of_cons. simpl. by rewrite bool_decide_true.
  - intros Hrow. rewrite row_of_cons, bool_decide_false by done. by apply IH.
Qed.

Lemma row_of_update_other rows k k' v :
  k' <> k -> row_of (update_rows rows k v) k' = row_of rows k'.
Proof.
  intros Hne. induction rows as [|r rows IH]; [done|].
  unfold update_rows in *. simpl.
  destruct (decide (r.1 = k)) as [Hk|Hk].
  - rewrite (bool_decide_true _ Hk), !row_of_cons. simpl.
    rewrite !bool_decide_false by congruence. apply IH.
  - rewrite (bool_decide_false _ Hk), !row_of_cons, IH. reflexivity.
Qed.

Lemma row_of_insert rows k v :
  row_of rows k = None -> row_of (insert_row rows k v) k = Some v.
Proof.
  induction rows as [|r rows IH]; unfold insert_row in *; simpl.
  - intros _. rewrite row_of_cons. simpl. by rewrite bool_decide_true.
  - rewrite !row_of_cons. case_bool_decide; [done|]. apply IH.
Qed.

Lemma row_of_insert_other rows k k' v :
  k' <> k -> row_of (insert_row rows k v) k' = row_of rows k'.
Proof.
  intros Hne. induction rows as [|r rows IH]; unfold insert_row in *; simpl.
  - rewrite row_of_cons. simpl. by rewrite bool_decide_false.
  - rewrite !row_of_cons. by rewrite IH.
Qed.

Lemma row_of_delete rows k : row_of (delete_rows rows k) k = None.
Proof.
  induction rows as [|r rows IH]; [done|].
  unfold delete_rows in *. simpl. case_bool_decide as Hk; simpl; [done|].
  rewrite row_of_cons, bool_decide_false by done. apply IH.
Qed.

Lemma count_votes_insert rows k v :
  count_votes (insert_row rows k v) v = S (count_votes rows v).
Proof.
  unfold count_votes, insert_row. rewrite List.filter_app, List.length_app. simpl.
  rewrite bool_decide_true by done. simpl. lia.
Qed.

Lemma count_votes_update_le rows k v :
  (count_votes rows v <= count_votes (update_rows rows k v) v)%nat.
Proof.
  induction rows as [|r rows IH]; [done|].
  unfold update_rows in *. simpl.
  destruct (decide (r.1 = k)) as [Hk|Hk].
  - rewrite (bool_decide_true _ Hk), !count_votes_cons. simpl.
    rewrite (bool_decide_true (v = v)) by done.
    destruct (bool_decide (r.2 = v)); lia.
  - rewrite (bool_decide_false _ Hk), !count_votes_cons. lia.
Qed.

(** A vote that changes adds at least one to the count of its side. *)
Lemma count_votes_update rows k v v0 :
  row_of rows k = Some v0 -> v0 <> v ->
  (S (count_votes rows v) <= count_votes (update_rows rows k v) v)%nat.
Proof.
  intros Hrow Hne. induction rows as [|r rows IH]; [done|].
  rewrite row_of_cons in Hrow. unfold update_rows in *. simpl.
  destruct (decide (r.1 = k)) as [Hk|Hk].
  - rewrite (bool_decide_true _ Hk) in *. rewrite !count_votes_cons. simpl.
    rewrite (bool_decide_true (v = v)) by done.
    rewrite (bool_decide_false (r.2 = v)) by congruence.
    pose proof (count_votes_update_le rows k v) as Hle.
    unfold update_rows in Hle. lia.
  - rewrite (bool_decide_false _ Hk) in *. rewrite !count_votes_cons.
    specialize (IH Hrow). lia.
Qed.

Lemma count_votes_pos rows k v :
  row_of rows k = Some v -> (1 <= count_votes rows v)%nat.
Proof.
  induction rows as [|r rows IH]; [done|].
  rewrite row_of_cons, count_votes_cons. case_bool_decide as Hk.
  - intros [= ->]. rewrite bool_decide_true by done. lia.
  - intros Hrow. specialize (IH Hrow). lia.
Qed.

Lemma count_votes_insert_other rows k v v' :
  v' <> v -> count_votes (insert_row rows k v) v' = count_votes rows v'.
Proof.
  intros Hne. unfold count_votes, insert_row.
  rewrite List.filter_app, List.length_app. simpl.
  rewrite bool_decide_false by congruence. simpl. lia.
Qed.

Lemma count_votes_update_other rows k v v' :
  v' <> v -> (count_votes (update_rows rows k v) v' <= count_votes rows v')%nat.
Proof.
  intros Hne. induction rows as [|r rows IH]; [done|].
  unfold update_rows in *. simpl.
  destruct (decide (r.1 = k)) as [Hk|Hk].
  - rewrite (bool_decide_true _ Hk), !count_votes_cons. simpl.
    rewrite (bool_decide_false (v = v')) by congruence.
    destruct (bool_decide (r.2 = v')); lia.
  - rewrite (bool_decide_false _ Hk), !count_votes_cons. lia.
Qed.

(** Two voters on the same side count for two. *)
Lemma count_votes_two rows k1 k2 v :
  k1 <> k2 -> row_of rows k1 = Some v -> row_of rows k2 = Some v ->
  (2 <= count_votes rows v)%nat.
Proof.
  intros Hne. induction rows as [|r rows IH]; [done|].
  rewrite !row_of_cons, count_votes_cons.
  case_bool_decide as H1; case_bool_decide as H2.
  - congruence.
  - intros [= ->] Hrow. rewrite bool_decide_true by done.
    pose proof (count_votes_pos _ _ _ Hrow). lia.
  - intros Hrow [= ->]. rewrite bool_decide_true by done.
    pose proof (count_votes_pos _ _ _ Hrow). lia.
  - intros Hrow1 Hrow2. specialize (IH Hrow1 Hrow2). lia.
Qed.
End RowsFacts.

(** ** The Approval Engine *)

Lemma cast_admin_vote_no_change (votes votes' : list (Z * bool)) (a : Z) (v : bool) (n : nat) :
  cast_admin_vote votes a v = (votes', n, true) ->
  votes' = votes /\ n = count_votes votes v /\ row_of votes a = Some v.
Proof.
  unfold cast_admin_vote. destruct (row_of votes a) as [v0|] eqn:Hrow; [|done].
  destruct (Bool.eqb v0 v) eqn:Heq; [|done].
  apply Bool.eqb_prop in Heq. subst v0. by intros [= <- <-].
Qed.

Lemma cast_admin_vote_changed (votes votes' : list (Z * bool)) (a : Z) (v : bool) (n : nat) :
  cast_admin_vote votes a v = (votes', n, false) ->
  n = count_votes votes' v /\ row_of votes' a = Some v /\
  (S (count_votes votes v) <= n)%nat /\ row_of votes a <> Some v /\
  (forall k, k <> a -> row_of votes' k = row_of votes k).
Proof.
  unfold cast_admin_vote. destruct (row_of votes a) as [v0|] eqn:Hrow.
  - destruct (Bool.eqb v0 v) eqn:Heq; [done|].
    apply Bool.eqb_false_iff in Heq. intros [= <- <-].
    split; [done|]. split; [by eapply row_of_update|].
    split; [by eapply count_votes_update|]. split; [congruence|].
    intros k Hk. by apply row_of_update_other.
  - intros [= <- <-]. split; [done|]. split; [by apply row_of_insert|].
    split; [by rewrite count_votes_insert|]. split; [done|].
    intros k Hk. by apply row_of_insert_other.
Qed.

Lemma cast_admin_vote_again (votes : list (Z * bool)) (a : Z) (v : bool) :
  row_of votes a = Some v ->
  cast_admin_vote votes a v = (votes, count_votes votes v, true).
Proof.
  intros Hrow. unfold cast_admin_vote. rewrite Hrow.
  by rewrite Bool.eqb_reflx.
Qed.

Lemma vote_result_changed (n : nat) : vote_result n false = Z.of_nat n.
Proof. reflexivity. Qed.

Lemma store_vote_same (w : World) (key : Z * Z) (r : PendingRecord) :
  pending w !! key = Some r -> store_vote w key r (admin_votes r) = w.
Proof.
  intros Hpost. apply world_ext; try reflexivity.
  simpl. apply insert_id. rewrite Hpost. by destruct r.
Qed.

Ltac fields :=
  rewrite ?pending_and_then, ?published_and_then, ?reports_and_then,
    ?next_message_id_and_then.

Lemma uncaught_deliver (env : Env) (chat : Z) :
  uncaught env chat =
  match deliver env chat with
  | Some TimedOut => Some TimedOut
  | _ => None
  end.
Proof. unfold uncaught. by destruct (deliver env chat) as [[]|]. Qed.

Lemma approve_yes_callback_run (env : Env) (info : CallbackInfo) (arg : string)
    (w : World) (r : PendingRecord) (votes' : list (Z * bool)) (count : nat)
    (no_change : bool) :
  pending w !! (chat_id info, message_id info) = Some r ->
  cast_admin_vote (admin_votes r) (sender_id info) true = (votes', count, no_change) ->
  let key := (chat_id info, message_id info) in
  let post := {| user_id := submitter r; group_id := chat_id info;
                 g_message_id := message_id info |} in
  let n := vote_result count no_change in
  let answered := AnswerCallbackQuery (query_id info) None in
  approve_yes_callback env info arg w =
  if Z.geb n (n_votes env) then
    match uncaught env (submitter r) with
    | None =>
        (Ok (None, None, None),
         and_then (promote env (store_vote w key r votes') key (submitter r))
           [answered;
            SendPostToChannel (cfg_channel_id env) (next_message_id w);
            notification env (submitter r)
              "Il tuo ultimo post è stato pubblicato su @Spotted_DMI"
              "Notifying the user on approve_yes";
            ShowAdminsVotes (chat_id info) (message_id info) true (voters_of votes' true);
            DeletePost (chat_id info) (message_id info)])
    | Some e =>
        (Raise (TelegramErr e),
         and_then (publish env (store_vote w key r votes') (submitter r))
           [answered; SendPostToChannel (cfg_channel_id env) (next_message_id w)])
    end
  else if negb (Z.eqb n (-1)) then
    match reply_markup info with
    | Some markup =>
        (Ok (None, Some (update_approve_kb env (inline_keyboard markup) post true n), None),
         and_then (store_vote w key r votes') [answered])
    | None => (Raise AttributeError, and_then (store_vote w key r votes') [answered])
    end
  else (Ok (None, None, None), and_then (store_vote w key r votes') [answered]).
Proof.
  intros Hpost Hcast key post n answered. subst key.
  unfold approve_yes_callback, from_group, set_admin_vote, pending_key. run.
  rewrite Hpost. run. fields. rewrite Hpost, Hcast. fold n.
  assert (Hstored : store_vote w (chat_id info, message_id info) r votes' =
                    if no_change then w
                    else (set_pending (insert (chat_id info, message_id info)
                            {| submitter := submitter r; admin_votes := votes' |}) w).2).
  { destruct no_change; [|reflexivity].
    destruct (cast_admin_vote_no_change _ _ _ _ _ Hcast) as (-> & _ & _).
    by apply store_vote_same. }
  assert (Hshow : pending (store_vote w (chat_id info, message_id info) r votes')
                    !! (chat_id info, message_id info)
                  = Some {| submitter := submitter r; admin_votes := votes' |}).
  { simpl. apply lookup_insert_eq. }
  rewrite Hstored in Hshow |- *.
  unfold send_post_to, notify_user, send_message, show_admins_votes, delete_post,
    keyboard_of, fresh_message_id, set_published, set_bot_data, set_pending,
    notification, uncaught, promote, publish, pending_key in *.
  destruct no_change; run; destruct (Z.geb n (n_votes env)); run;
    try (destruct (Z.eqb n (-1)); run; destruct (reply_markup info); run; reflexivity);
    destruct (comments env); run; destruct (deliver env (submitter r)) as [[]|]; run;
    simpl in Hshow; rewrite ?Hshow;
    f_equal; apply world_ext; simpl; rewrite <- ?app_assoc; reflexivity.
Qed.

Lemma approve_no_callback_run (env : Env) (info : CallbackInfo) (arg : string)
    (w : World) (r : PendingRecord) (votes' : list (Z * bool)) (count : nat)
    (no_change : bool) :
  pending w !! (chat_id info, message_id info) = Some r ->
  cast_admin_vote (admin_votes r) (sender_id info) false = (votes', count, no_change) ->
  let key := (chat_id info, message_id info) in
  let post := {| user_id := submitter r; group_id := chat_id info;
                 g_message_id := message_id info |} in
  let n := vote_result count no_change in
  let answered := AnswerCallbackQuery (query_id info) None in
  approve_no_callback env info arg w =
  if Z.geb n (n_votes env) then
    match uncaught env (submitter r) with
    | None =>
        (Ok (None, None, None),
         and_then (reject (store_vote w key r votes') key)
           [answered;
            notification env (submitter r)
              ("Il tuo ultimo post è stato rifiutato" ++ String "010" ""
               ++ "Puoi controllare le regole con /rules")
              "Notifying the user on approve_no";
            ShowAdminsVotes (chat_id info) (message_id info) false (voters_of votes' false);
            DeletePost (chat_id info) (message_id info)])
    | Some e =>
        (Raise (TelegramErr e), and_then (store_vote w key r votes') [answered])
    end
  else if negb (Z.eqb n (-1)) then
    match reply_markup info with
    | Some markup =>
        (Ok (None, Some (update_approve_kb env (inline_keyboard markup) post false n), None),
         and_then (store_vote w key r votes') [answered])
    | None => (Raise AttributeError, and_then (store_vote w key r votes') [answered])
    end
  else (Ok (None, None, None), and_then (store_vote w key r votes') [answered]).
Proof.
  intros Hpost Hcast key post n answered. subst key.
  unfold approve_no_callback, from_group, set_admin_vote, pending_key. run.
  rewrite Hpost. run. fields. rewrite Hpost, Hcast. fold n.
  assert (Hstored : store_vote w (chat_id info, message_id info) r votes' =
                    if no_change then w
                    else (set_pending (insert (chat_id info, message_id info)
                            {| submitter := submitter r; admin_votes := votes' |}) w).2).
  { destruct no_change; [|reflexivity].
    destruct (cast_admin_vote_no_change _ _ _ _ _ Hcast) as (-> & _ & _).
    by apply store_vote_same. }
  assert (Hshow : pending (store_vote w (chat_id info, message_id info) r votes')
                    !! (chat_id info, message_id info)
                  = Some {| submitter := submitter r; admin_votes := votes' |}).
  { simpl. apply lookup_insert_eq. }
  rewrite Hstored in Hshow |- *.
  unfold notify_user, send_message, show_admins_votes, delete_post,
    keyboard_of, set_pending, notification, uncaught, reject, pending_key in *.
  destruct no_change; run; destruct (Z.geb n (n_votes env)); run;
    try (destruct (Z.eqb n (-1)); run; destruct (reply_markup info); run; reflexivity);
    destruct (deliver env (submitter r)) as [[]|]; run;
    simpl in Hshow; rewrite ?Hshow;
    f_equal; apply world_ext; simpl; rewrite <- ?app_assoc; reflexivity.
Qed.

Lemma count_events_app (f : Event -> bool) (a b : list Event) :
  count_events f (a ++ b) = (count_events f a + count_events f b)%nat.
Proof. unfold count_events. by rewrite List.filter_app, List.length_app. Qed.

Lemma notification_neither (env : Env) (chat : Z) (text where_ : string) :
  is_promotion (notification env chat text where_) = false /\
  is_deletion (notification env chat text where_) = false /\
  is_edit (notification env chat text where_) = false.
Proof. unfold notification. by destruct (deliver env chat). Qed.

(** C6: when Telegram cannot deliver the notification to the submitter
    ([BadRequest] or [Unauthorized], the errors of an unreachable chat),
    the handler logs a warning and finishes the transition: the pending
    post is deleted, on the approve path the published post is there, and
    the store is the one that the same call leaves when the notification
    is delivered. *)
Theorem unreachable_submitter (env : Env) (info : CallbackInfo) (arg : string)
    (w : World) (r : PendingRecord) (approve : bool)
    (votes' : list (Z * bool)) (count : nat) (no_change : bool) (e : TelegramError) :
  let key := (chat_id info, message_id info) in
  let handler := if approve then approve_yes_callback else approve_no_callback in
  let where_ :=
    if approve then "Notifying the user on approve_yes"
    else "Notifying the user on approve_no" in
  pending w !! key = Some r ->
  cast_admin_vote (admin_votes r) (sender_id info) approve = (votes', count, no_change) ->
  n_votes env <= vote_result count no_change ->
  deliver env (submitter r) = Some e ->
  caught e = true ->
  exists w_failed w_delivered,
    handler env info arg w = (Ok (None, None, None), w_failed) /\
    handler (reachable env) info arg w = (Ok (None, None, None), w_delivered) /\
    same_store w_failed w_delivered /\
    pending w_failed !! key = None /\
    (approve = true ->
     published w_failed !! (cfg_channel_id env, next_message_id w) = Some []) /\
    LogWarning where_ e ∈ trace w_failed /\
    count_events is_notification (trace w_failed) = count_events is_notification (trace w).
Proof.
  intros key handler where_ Hpost Hcast Hquorum Hdeliver Hcaught.
  apply Z.geb_le in Hquorum.
  assert (Hnotify : uncaught env (submitter r) = None).
  { unfold uncaught. by rewrite Hdeliver, Hcaught. }
  destruct approve; subst handler where_.
  - rewrite (approve_yes_callback_run env info arg w r votes' count no_change Hpost Hcast).
    rewrite (approve_yes_callback_run (reachable env) info arg w r votes' count no_change
               Hpost Hcast).
    simpl. rewrite Hquorum, Hnotify. unfold notification. simpl. rewrite Hdeliver.
    eexists; eexists. split; [reflexivity|]. split; [reflexivity|].
    split; [by repeat split|]. simpl.
    split; [apply lookup_delete_eq|]. split; [intros _; apply lookup_insert_eq|].
    split.
    + apply elem_of_app. right.
      do 2 apply list_elem_of_further. apply list_elem_of_here.
    + rewrite count_events_app. unfold count_events. simpl. lia.
  - rewrite (approve_no_callback_run env info arg w r votes' count no_change Hpost Hcast).
    rewrite (approve_no_callback_run (reachable env) info arg w r votes' count no_change
               Hpost Hcast).
    simpl. rewrite Hquorum, Hnotify. unfold notification. simpl. rewrite Hdeliver.
    eexists; eexists. split; [reflexivity|]. split; [reflexivity|].
    split; [by repeat split|]. simpl.
    split; [apply lookup_delete_eq|]. split; [done|].
    split.
    + apply elem_of_app. right.
      apply list_elem_of_further, list_elem_of_here.
    + rewrite count_events_app. unfold count_events. simpl. lia.
Qed.

Lemma unreachable_submitter_witness :
  exists w_failed w_delivered,
    approve_yes_callback ex_env_blocked (ex_info "meme_approve_yes," (-2002) 7 2) ""
      (ex_world [(1, true)] None) = (Ok (None, None, None), w_failed) /\
    approve_yes_callback (reachable ex_env_blocked)
      (ex_info "meme_approve_yes," (-2002) 7 2) ""
      (ex_world [(1, true)] None) = (Ok (None, None, None), w_delivered) /\
    same_store w_failed w_delivered /\
    LogWarning "Notifying the user on approve_yes" Unauthorized ∈ trace w_failed.
Proof.
  destruct (unreachable_submitter ex_env_blocked
              (ex_info "meme_approve_yes," (-2002) 7 2) ""
              (ex_world [(1, true)] None) {| submitter := 50; admin_votes := [(1, true)] |}
              true [(1, true); (2, true)] 2 false Unauthorized
              eq_refl eq_refl ltac:(simpl; lia) eq_refl eq_refl)
    as (w1 & w2 & H1 & H2 & Hsame & _ & _ & Hlog & _).
  exists w1, w2. repeat split; try assumption; apply Hsame.
Defined.

(** After a call of an admin handler the pending post is either gone or
    holds the vote of the sender. *)
Lemma admin_vote_recorded (env : Env) (info : CallbackInfo) (arg : string)
    (w : World) (approve : bool) :
  let handler := if approve then approve_yes_callback else approve_no_callback in
  match pending (handler env info arg w).2 !! (chat_id info, message_id info) with
  | Some r => row_of (admin_votes r) (sender_id info) = Some approve
  | None => True
  end.
Proof.
  intros handler.
  destruct (pending w !! (chat_id info, message_id info)) as [r|] eqn:Hpost.
  - destruct (cast_admin_vote (admin_votes r) (sender_id info) approve)
      as [[votes' count] no_change] eqn:Hcast.
    assert (row_of votes' (sender_id info) = Some approve) as Hrow.
    { destruct no_change.
      - by destruct (cast_admin_vote_no_change _ _ _ _ _ Hcast) as (-> & _ & ?).
      - by destruct (cast_admin_vote_changed _ _ _ _ _ Hcast) as (_ & ? & _). }
    assert (handler env info arg w =
              (if approve then approve_yes_callback else approve_no_callback) env info arg w)
      as -> by reflexivity.
    destruct approve.
    all: [> rewrite (approve_yes_callback_run env info arg w r votes' count no_change Hpost Hcast)
          | rewrite (approve_no_callback_run env info arg w r votes' count no_change Hpost Hcast)].
    all: destruct (Z.geb _ _); [destruct (uncaught env (submitter r))|]; simpl;
      rewrite ?lookup_delete_eq; try done.
    all: try (destruct (negb _); simpl; try destruct (reply_markup info); simpl).
    all: rewrite lookup_insert_eq; exact Hrow.
  - destruct (absent_pending_post env info arg w Hpost) as (Hyes & Hno).
    destruct approve; subst handler; [rewrite Hyes|rewrite Hno]; simpl; by rewrite Hpost.
Qed.

(** A handler called for a vote that is already in the record. *)
Lemma admin_vote_repeated (env : Env) (info : CallbackInfo) (arg : string)
    (w : World) (r : PendingRecord) (approve : bool) :
  let handler := if approve then approve_yes_callback else approve_no_callback in
  0 <= n_votes env ->
  pending w !! (chat_id info, message_id info) = Some r ->
  row_of (admin_votes r) (sender_id info) = Some approve ->
  handler env info arg w =
  (Ok (None, None, None), and_then w [AnswerCallbackQuery (query_id info) None]).
Proof.
  intros handler Hquorum Hpost Hrow.
  pose proof (cast_admin_vote_again _ _ _ Hrow) as Hcast.
  assert (Z.geb (-1) (n_votes env) = false) as Hgeb.
  { rewrite Z.geb_leb. apply Z.leb_gt. lia. }
  destruct approve; subst handler;
    [rewrite (approve_yes_callback_run env info arg w r _ _ _ Hpost Hcast)
    |rewrite (approve_no_callback_run env info arg w r _ _ _ Hpost Hcast)];
    simpl; rewrite Hgeb; simpl; by rewrite (store_vote_same _ _ _ Hpost).
Qed.

(** C3: the same vote of the same admin a second time leaves the votes
    and their count as they are and reports no change; the handler then
    returns no text and no keyboard, and apart from the answer to the
    callback query it sends nothing and writes nothing to the store. *)
Theorem repeated_vote_is_silent (env : Env) (info : CallbackInfo) (arg : string)
    (w : World) (approve : bool) :
  let handler := if approve then approve_yes_callback else approve_no_callback in
  0 <= n_votes env ->
  (forall votes admin,
     let '(votes1, count1, _) := cast_admin_vote votes admin approve in
     cast_admin_vote votes1 admin approve = (votes1, count1, true) /\
     count_votes votes1 approve = count1) /\
  (let w1 := (handler env info arg w).2 in
   exists answers,
     handler env info arg w1 = (Ok (None, None, None), and_then w1 answers) /\
     (answers = [] \/ answers = [AnswerCallbackQuery (query_id info) None])).
Proof.
  intros handler Hquorum. split.
  - intros votes admin.
    destruct (cast_admin_vote votes admin approve) as [[votes1 count1] no_change] eqn:Hcast.
    destruct no_change.
    + destruct (cast_admin_vote_no_change _ _ _ _ _ Hcast) as (-> & -> & Hrow).
      by rewrite (cast_admin_vote_again _ _ _ Hrow).
    + destruct (cast_admin_vote_changed _ _ _ _ _ Hcast) as (-> & Hrow & _).
      by rewrite (cast_admin_vote_again _ _ _ Hrow).
  - intros w1.
    pose proof (admin_vote_recorded env info arg w approve) as Hrecorded.
    cbv zeta in Hrecorded. fold handler w1 in Hrecorded.
    destruct (pending w1 !! (chat_id info, message_id info)) as [r1|] eqn:Hpost1.
    + exists [AnswerCallbackQuery (query_id info) None].
      split; [|by right].
      by apply (admin_vote_repeated env info arg w1 r1 approve).
    + exists []. split; [|by left]. rewrite and_then_nil.
      destruct (absent_pending_post env info arg w1 Hpost1). by destruct approve.
Qed.

Lemma repeated_vote_is_silent_witness :
  let info := ex_info "meme_approve_yes," (-2002) 7 1 in
  let w1 := (approve_yes_callback ex_env info "" (ex_world [] None)).2 in
  exists answers,
    approve_yes_callback ex_env info "" w1 = (Ok (None, None, None), and_then w1 answers) /\
    (answers = [] \/ answers = [AnswerCallbackQuery 1 None]).
Proof.
  intros info w1.
  destruct (repeated_vote_is_silent ex_env info "" (ex_world [] None) true
              ltac:(simpl; lia)) as (_ & H).
  exact H.
Defined.

(** ** The Reaction Tally *)

Section TallyFacts.
Context {V : Type} `{EqDecision V}.
Implicit Types (rows : list (Z * V)) (k : Z) (v : V).

Lemma rows_of_cons rows (r : Z * V) k :
  rows_of (r :: rows) k =
  if bool_decide (r.1 = k) then r.2 :: rows_of rows k else rows_of rows k.
Proof. unfold rows_of. simpl. by destruct (bool_decide (r.1 = k)). Qed.

Lemma row_of_head rows k : row_of rows k = head (rows_of rows k).
Proof.
  induction rows as [|r rows IH]; [done|].
  rewrite row_of_cons, rows_of_cons. by destruct (bool_decide (r.1 = k)).
Qed.

Lemma rows_of_update rows k v k' :
  rows_of (update_rows rows k v) k' =
  if bool_decide (k' = k) then List.map (fun _ => v) (rows_of rows k)
  else rows_of rows k'.
Proof.
  induction rows as [|r rows IH]; [by destruct (bool_decide (k' = k))|].
  unfold update_rows in *. simpl.
  destruct (decide (r.1 = k)) as [Hk|Hk].
  - rewrite (bool_decide_true _ Hk), !rows_of_cons, IH. simpl.
    rewrite (bool_decide_true _ Hk).
    destruct (decide (k' = k)) as [->|Hk'].
    + by rewrite !bool_decide_true by done.
    + rewrite !bool_decide_false by congruence. reflexivity.
  - rewrite (bool_decide_false _ Hk), !rows_of_cons, IH.
    rewrite (bool_decide_false _ Hk).
    destruct (decide (k' = k)) as [->|Hk'].
    + rewrite bool_decide_false by done. by rewrite bool_decide_true.
    + by rewrite (bool_decide_false (k' = k)).
Qed.

Lemma rows_of_insert rows k v k' :
  rows_of (insert_row rows k v) k' =
  (rows_of rows k' ++ if bool_decide (k' = k) then [v] else [])%list.
Proof.
  unfold rows_of, insert_row. rewrite List.filter_app, List.map_app. simpl.
  destruct (decide (k' = k)) as [->|Hk'].
  - by rewrite !bool_decide_true.
  - rewrite (bool_decide_false (k = k')) by congruence.
    by rewrite (bool_decide_false (k' = k)).
Qed.

Lemma rows_of_delete rows k k' :
  rows_of (delete_rows rows k) k' =
  if bool_decide (k' = k) then [] else rows_of rows k'.
Proof.
  induction rows as [|r rows IH]; [by destruct (bool_decide (k' = k))|].
  unfold delete_rows in *. simpl.
  destruct (decide (r.1 = k)) as [Hk|Hk].
  - rewrite (bool_decide_true _ Hk). simpl. rewrite IH, rows_of_cons.
    destruct (decide (k' = k)) as [->|Hk'].
    + by rewrite bool_decide_true.
    + rewrite (bool_decide_false (k' = k)) by done.
      by rewrite bool_decide_false by congruence.
  - rewrite (bool_decide_false _ Hk). simpl. rewrite !rows_of_cons, IH.
    destruct (decide (k' = k)) as [->|Hk'].
    + rewrite (bool_decide_true (k = k)) by done.
      by rewrite (bool_decide_false (r.1 = k)).
    + by rewrite (bool_decide_false (k' = k)).
Qed.

Lemma one_row_each_update rows k v :
  one_row_each rows -> one_row_each (update_rows rows k v).
Proof.
  intros Hone k'. rewrite rows_of_update. case_bool_decide; [|apply Hone].
  rewrite List.length_map. apply Hone.
Qed.

Lemma one_row_each_insert rows k v :
  row_of rows k = None -> one_row_each rows -> one_row_each (insert_row rows k v).
Proof.
  intros Hnone Hone k'. rewrite rows_of_insert, List.length_app.
  case_bool_decide as Hk; simpl.
  - subst k'. rewrite row_of_head in Hnone.
    destruct (rows_of rows k); [simpl; lia|done].
  - specialize (Hone k'). lia.
Qed.

Lemma one_row_each_delete rows k :
  one_row_each rows -> one_row_each (delete_rows rows k).
Proof.
  intros Hone k'. rewrite rows_of_delete. case_bool_decide; [simpl; lia|apply Hone].
Qed.

Lemma one_row_each_single rows k v :
  one_row_each rows -> row_of rows k = Some v -> rows_of rows k = [v].
Proof.
  intros Hone Hrow. specialize (Hone k). rewrite row_of_head in Hrow.
  destruct (rows_of rows k) as [|v0 [|v1 l]]; simpl in *; [done| |lia].
  by injection Hrow as ->.
Qed.
End TallyFacts.

(** Under the invariant of the table a vote that changes adds exactly one. *)
Section Exact.
Context {V : Type} `{EqDecision V}.
Implicit Types (rows : list (Z * V)) (k : Z) (v : V).

Lemma one_row_each_tail rows (r : Z * V) :
  one_row_each (r :: rows) -> one_row_each rows.
Proof.
  intros Hone k. specialize (Hone k). rewrite rows_of_cons in Hone.
  destruct (bool_decide (r.1 = k)); simpl in Hone; lia.
Qed.

Lemma update_rows_absent rows k v :
  rows_of rows k = [] -> update_rows rows k v = rows.
Proof.
  induction rows as [|r rows IH]; [done|].
  rewrite rows_of_cons. unfold update_rows in *. simpl.
  destruct (bool_decide (r.1 = k)); [done|]. intros Hnone. by rewrite IH.
Qed.

Lemma count_votes_update_exact rows k v v0 :
  one_row_each rows -> row_of rows k = Some v0 -> v0 <> v ->
  count_votes (update_rows rows k v) v = S (count_votes rows v).
Proof.
  intros Hone Hrow Hne. induction rows as [|r rows IH]; [done|].
  rewrite row_of_cons in Hrow.
  pose proof (Hone k) as Hk. rewrite rows_of_cons in Hk.
  unfold update_rows in *. simpl.
  destruct (decide (r.1 = k)) as [Heq|Heq].
  - rewrite (bool_decide_true _ Heq) in *. injection Hrow as Hvote.
    assert (rows_of rows k = []) as Hnone by (destruct (rows_of rows k); [done|simpl in Hk; lia]).
    pose proof (update_rows_absent rows k v Hnone) as Hsame. unfold update_rows in Hsame.
    rewrite Hsame, !count_votes_cons. simpl.
    rewrite (bool_decide_true (v = v)) by done.
    by rewrite (bool_decide_false (r.2 = v)) by congruence.
  - rewrite (bool_decide_false _ Heq) in *. rewrite !count_votes_cons.
    rewrite IH; [lia| by eapply one_row_each_tail | done].
Qed.
End Exact.

Lemma cast_admin_vote_exact (votes votes' : list (Z * bool)) (a : Z) (v : bool) (n : nat) :
  one_row_each votes ->
  cast_admin_vote votes a v = (votes', n, false) ->
  n = S (count_votes votes v) /\ one_row_each votes'.
Proof.
  intros Hone. unfold cast_admin_vote.
  destruct (row_of votes a) as [v0|] eqn:Hrow.
  - destruct (Bool.eqb v0 v) eqn:Heq; [done|].
    apply Bool.eqb_false_iff in Heq. intros [= <- <-].
    split; [by eapply count_votes_update_exact|by apply one_row_each_update].
  - intros [= <- <-]. split; [apply count_votes_insert|by apply one_row_each_insert].
Qed.

Lemma cast_user_vote_one_row_each (tally : Tally) (voter : Z) (category : string) :
  one_row_each tally -> one_row_each (cast_user_vote tally voter category).1.
Proof.
  intros Hone. unfold cast_user_vote.
  destruct (row_of tally voter) as [current|] eqn:Hrow.
  - destruct (String.eqb current category); simpl.
    + by apply one_row_each_delete.
    + by apply one_row_each_update.
  - simpl. by apply one_row_each_insert.
Qed.

Lemma set_user_vote_run (env : Env) (p : PublishedPost) (voter : Z) (category : string)
    (w : World) :
  set_user_vote env p voter category w =
  match published w !! published_key p with
  | None => (Raise NotFound, w)
  | Some tally =>
      match REACTION env !! category with
      | None => (Raise (InvalidCategory category), w)
      | Some _ =>
          (Ok (cast_user_vote tally voter category).2,
           store_tally w (published_key p) (cast_user_vote tally voter category).1)
      end
  end.
Proof.
  unfold set_user_vote. run.
  destruct (published w !! published_key p) as [tally|]; [|reflexivity].
  destruct (REACTION env !! category); [|reflexivity].
  destruct (cast_user_vote tally voter category) as [tally' was_added].
  reflexivity.
Qed.

Lemma set_user_vote_tallies_ok (env : Env) (p : PublishedPost) (voter : Z)
    (category : string) (w : World) :
  tallies_ok w -> tallies_ok (set_user_vote env p voter category w).2.
Proof.
  intros Hok. rewrite set_user_vote_run.
  destruct (published w !! published_key p) as [tally|] eqn:Hpost; [|exact Hok].
  destruct (REACTION env !! category); [|exact Hok].
  intros key tally'. simpl. rewrite lookup_insert.
  case_decide as Hkey.
  - intros [= <-]. apply cast_user_vote_one_row_each. by apply (Hok _ _ Hpost).
  - apply Hok.
Qed.

Lemma cast_user_votes_tallies_ok (env : Env) (p : PublishedPost)
    (calls : list (Z * string)) (w : World) :
  tallies_ok w -> tallies_ok (cast_user_votes env p calls w).
Proof.
  revert w. induction calls as [|[voter category] calls IH]; intros w Hok; [exact Hok|].
  simpl. apply IH. by apply set_user_vote_tallies_ok.
Qed.

(** C4 (as amended): after any sequence of [set_user_vote] calls every
    voter has at most one row in every tally.  Two calls in a row with the
    same category cancel that category: when the voter did not hold it, the
    first call answers [true] and the second removes the entry and answers
    [false]; when the voter held it already, the first call is the one that
    removes it and answers [false], and the second puts it back and
    answers [true].  A call with another category than the one held
    answers [true] and leaves the voter with the new category only. *)
Theorem reactions_exclusive (env : Env) (p : PublishedPost) (w : World) :
  (forall calls, tallies_ok w -> tallies_ok (cast_user_votes env p calls w)) /\
  (forall voter category tally reaction,
     published w !! published_key p = Some tally ->
     REACTION env !! category = Some reaction ->
     let first := set_user_vote env p voter category w in
     let second := set_user_vote env p voter category first.2 in
     exists tally2,
       published second.2 !! published_key p = Some tally2 /\
       if decide (row_of tally voter = Some category)
       then first.1 = Ok false /\ second.1 = Ok true /\ rows_of tally2 voter = [category]
       else first.1 = Ok true /\ second.1 = Ok false /\ rows_of tally2 voter = []) /\
  (forall voter held category tally reaction,
     published w !! published_key p = Some tally ->
     one_row_each tally ->
     REACTION env !! category = Some reaction ->
     row_of tally voter = Some held ->
     category <> held ->
     exists tally',
       set_user_vote env p voter category w =
       (Ok true, store_tally w (published_key p) tally') /\
       rows_of tally' voter = [category]).
Proof.
  split; [intros calls; apply cast_user_votes_tallies_ok|]. split.
  - intros voter category tally reaction Hpost Hreaction first second.
    assert (Hfirst : set_user_vote env p voter category w =
                     (Ok (cast_user_vote tally voter category).2,
                      store_tally w (published_key p)
                        (cast_user_vote tally voter category).1))
      by by rewrite set_user_vote_run, Hpost, Hreaction.
    subst second first. rewrite Hfirst. simpl.
    rewrite set_user_vote_run. simpl. rewrite lookup_insert_eq, Hreaction. simpl.
    eexists. split; [apply lookup_insert_eq|].
    clear Hfirst. generalize (eq_refl (cast_user_vote tally voter category)).
    unfold cast_user_vote at 2.
    destruct (row_of tally voter) as [current|] eqn:Hrow; intros ->.
    + destruct (String.eqb current category) eqn:Heq.
      * apply String.eqb_eq in Heq. subst current.
        rewrite decide_True by done. simpl.
        unfold cast_user_vote. rewrite row_of_delete. simpl.
        rewrite rows_of_insert, rows_of_delete, !bool_decide_true by done.
        done.
      * apply String.eqb_neq in Heq.
        rewrite decide_False by congruence. simpl.
        unfold cast_user_vote. rewrite (row_of_update _ _ _ _ Hrow), String.eqb_refl.
        simpl. rewrite rows_of_delete, bool_decide_true by done. done.
    + rewrite decide_False by done. simpl.
      unfold cast_user_vote. rewrite (row_of_insert _ _ _ Hrow), String.eqb_refl.
      simpl. rewrite rows_of_delete, bool_decide_true by done. done.
  - intros voter held category tally reaction Hpost Hone Hreaction Hrow Hne.
    rewrite set_user_vote_run, Hpost, Hreaction.
    unfold cast_user_vote. rewrite Hrow.
    assert (String.eqb held category = false) as -> by (apply String.eqb_neq; congruence).
    simpl. eexists. split; [reflexivity|].
    rewrite rows_of_update, bool_decide_true by done.
    by rewrite (one_row_each_single _ _ _ Hone Hrow).
Qed.

Lemma reactions_exclusive_witness :
  let p := {| channel_id := -1001; c_message_id := 9 |} in
  let w := ex_world [] (Some [(3, "0")]) in
  (exists tally',
     set_user_vote ex_env p 3 "1" w = (Ok true, store_tally w (published_key p) tally') /\
     rows_of tally' 3 = ["1"]) /\
  (let first := set_user_vote ex_env p 4 "1" w in
   let second := set_user_vote ex_env p 4 "1" first.2 in
   first.1 = Ok true /\ second.1 = Ok false).
Proof.
  intros p w.
  destruct (reactions_exclusive ex_env p w) as (_ & Htwice & Hswitch).
  split.
  - apply (Hswitch 3 "0" "1" [(3, "0")] "👍"); try reflexivity; try discriminate.
    intros k. unfold rows_of. simpl. destruct (bool_decide (3 = k)); simpl; lia.
  - destruct (Htwice 4 "1" [(3, "0")] "👍" eq_refl eq_refl) as (tally2 & _ & Hcase).
    rewrite decide_False in Hcase by discriminate.
    destruct Hcase as (Hfirst & Hsecond & _). by split.
Defined.

(** C4 (as stated) fails: voter 3 holds the category "1"; the first of two
    calls with "1" retracts it and answers [false], the second casts it
    again, answers [true] and removes nothing. *)
Lemma second_same_reaction_adds :
  let p := {| channel_id := -1001; c_message_id := 9 |} in
  let w := ex_world [] (Some [(3, "1")]) in
  let first := set_user_vote ex_env p 3 "1" w in
  let second := set_user_vote ex_env p 3 "1" first.2 in
  first.1 = Ok false /\
  second.1 = Ok true /\
  published second.2 !! (-1001, 9) = Some [(3, "1")].
Proof. repeat split; reflexivity. Qed.

(** ** Two approvals of the same post *)

(** A run of the statements of [approve_yes_callback], one after the
    other, is a call of the handler. *)
Lemma approve_yes_steps_run (env : Env) (info : CallbackInfo) (arg : string) (w : World) :
  approve_yes_steps env 7 info AtLoad w =
  (Finished (approve_yes_callback env info arg w).1, (approve_yes_callback env info arg w).2).
Proof.
  unfold approve_yes_callback, approve_yes_steps, approve_yes_step, from_group. run.
  destruct (pending w !! (chat_id info, message_id info)) as [r|]; [|reflexivity].
  unfold set_admin_vote. run.
  destruct (pending w !! _) as [r'|]; [|reflexivity].
  destruct (cast_admin_vote _ _ _) as [[votes' count] no_change].
  unfold send_post_to, notify_user, send_message, show_admins_votes, delete_post,
    keyboard_of, fresh_message_id, set_published, set_bot_data, set_pending.
  destruct no_change; run;
    (destruct (Z.geb _ (n_votes env)); run;
     [destruct (comments env); run; destruct (deliver env _) as [[]|]; run; reflexivity
     |try destruct (Z.eqb _ _); run; try destruct (reply_markup info); reflexivity]).
Qed.

Lemma interleave_app (env : Env) (infoA infoB : CallbackInfo) (s1 s2 : list bool)
    (pcA pcB : ApprovePc) (w : World) :
  interleave env infoA infoB (s1 ++ s2) pcA pcB w =
  let '(pcA', pcB', w') := interleave env infoA infoB s1 pcA pcB w in
  interleave env infoA infoB s2 pcA' pcB' w'.
Proof.
  revert pcA pcB w. induction s1 as [|[|] s1 IH]; intros pcA pcB w; simpl.
  - reflexivity.
  - destruct (approve_yes_step env infoA pcA w). apply IH.
  - destruct (approve_yes_step env infoB pcB w). apply IH.
Qed.

Lemma interleave_first (env : Env) (infoA infoB : CallbackInfo) (n : nat)
    (pcA pcB : ApprovePc) (w : World) :
  interleave env infoA infoB (replicate n true) pcA pcB w =
  ((approve_yes_steps env n infoA pcA w).1, pcB, (approve_yes_steps env n infoA pcA w).2).
Proof.
  revert pcA w. induction n as [|n IH]; intros pcA w; simpl; [reflexivity|].
  destruct (approve_yes_step env infoA pcA w). apply IH.
Qed.

Lemma interleave_second (env : Env) (infoA infoB : CallbackInfo) (n : nat)
    (pcA pcB : ApprovePc) (w : World) :
  interleave env infoA infoB (replicate n false) pcA pcB w =
  (pcA, (approve_yes_steps env n infoB pcB w).1, (approve_yes_steps env n infoB pcB w).2).
Proof.
  revert pcB w. induction n as [|n IH]; intros pcB w; simpl; [reflexivity|].
  destruct (approve_yes_step env infoB pcB w). apply IH.
Qed.

(** What one call of [approve_yes_callback] does to a post of the store. *)
Lemma approve_yes_callback_effect (env : Env) (info : CallbackInfo) (arg : string)
    (w : World) (r : PendingRecord) (votes' : list (Z * bool)) (count : nat)
    (no_change : bool) :
  let key := (chat_id info, message_id info) in
  let w1 := (approve_yes_callback env info arg w).2 in
  pending w !! key = Some r ->
  cast_admin_vote (admin_votes r) (sender_id info) true = (votes', count, no_change) ->
  uncaught env (submitter r) = None ->
  if Z.geb (vote_result count no_change) (n_votes env) then
    pending w1 !! key = None /\
    count_events is_promotion (trace w1) = S (count_events is_promotion (trace w)) /\
    count_events is_deletion (trace w1) = S (count_events is_deletion (trace w))
  else
    pending w1 !! key = Some {| submitter := submitter r; admin_votes := votes' |} /\
    count_events is_promotion (trace w1) = count_events is_promotion (trace w) /\
    count_events is_deletion (trace w1) = count_events is_deletion (trace w).
Proof.
  intros key w1 Hpost Hcast Hnotify. subst w1.
  rewrite (approve_yes_callback_run env info arg w r votes' count no_change Hpost Hcast).
  rewrite Hnotify. destruct (Z.geb _ _).
  - simpl. rewrite lookup_delete_eq, !count_events_app.
    pose proof (notification_neither env (submitter r)
      "Il tuo ultimo post è stato pubblicato su @Spotted_DMI"
      "Notifying the user on approve_yes") as (Hp & Hd & _).
    unfold count_events. simpl. rewrite Hp, Hd. simpl. repeat split; lia.
  - destruct (negb _); [destruct (reply_markup info)|]; simpl;
      rewrite lookup_insert_eq, !count_events_app; unfold count_events; simpl;
      repeat split; lia.
Qed.

(** Two runs that do not overlap, on a post below the quorum. *)
Lemma serial_approvals (env : Env) (infoA infoB : CallbackInfo)
    (arg : string) (w : World) (r : PendingRecord) :
  let key := (chat_id infoA, message_id infoA) in
  let w1 := (approve_yes_callback env infoA arg w).2 in
  let w2 := (approve_yes_callback env infoB arg w1).2 in
  n_votes env = 2 ->
  chat_id infoB = chat_id infoA ->
  message_id infoB = message_id infoA ->
  sender_id infoA <> sender_id infoB ->
  pending w !! key = Some r ->
  uncaught env (submitter r) = None ->
  (count_votes (admin_votes r) true < 2)%nat ->
  (exists pcA pcB,
     interleave env infoA infoB (replicate 7 true ++ replicate 7 false) AtLoad AtLoad w
     = (Finished pcA, Finished pcB, w2)) /\
  count_events is_promotion (trace w2) = S (count_events is_promotion (trace w)) /\
  count_events is_deletion (trace w2) = S (count_events is_deletion (trace w)) /\
  pending w2 !! key = None /\
  (forall info arg',
     chat_id info = chat_id infoA -> message_id info = message_id infoA ->
     approve_yes_callback env info arg' w2 = (Ok (None, None, None), w2) /\
     approve_no_callback env info arg' w2 = (Ok (None, None, None), w2)).
Proof.
  intros key w1 w2 Hquorum Hchat Hmsg Hadmins Hpost Hnotify Hbelow.
  assert (Hserial : exists pcA pcB,
    interleave env infoA infoB (replicate 7 true ++ replicate 7 false) AtLoad AtLoad w
    = (Finished pcA, Finished pcB, w2)).
  { rewrite interleave_app, interleave_first.
    rewrite (approve_yes_steps_run env infoA arg w). cbv beta iota. cbn [fst snd].
    rewrite interleave_second.
    rewrite (approve_yes_steps_run env infoB arg). cbn [fst snd].
    eauto. }
  assert (Hfacts :
    count_events is_promotion (trace w2) = S (count_events is_promotion (trace w)) /\
    count_events is_deletion (trace w2) = S (count_events is_deletion (trace w)) /\
    pending w2 !! key = None).
  { destruct (cast_admin_vote (admin_votes r) (sender_id infoA) true)
      as [[votes1 count1] no_change1] eqn:Hcast1.
    pose proof (approve_yes_callback_effect env infoA arg w r _ _ _ Hpost Hcast1 Hnotify)
      as H1.
    cbv zeta in H1. fold key w1 in H1. rewrite Hquorum in H1.
    destruct (Z.geb (vote_result count1 no_change1) 2) eqn:Hgeb1.
    - (* the first call promotes; the second finds nothing *)
      destruct H1 as (Hgone & Hprom & Hdel).
      destruct (absent_pending_post env infoB arg w1) as (Hyes & _);
        [by rewrite Hchat, Hmsg|].
      subst w2. rewrite Hyes. simpl. by rewrite Hprom, Hdel.
    - (* the first call leaves the post; the second reaches the quorum *)
      destruct H1 as (Hpost1 & Hprom & Hdel).
      destruct (cast_admin_vote votes1 (sender_id infoB) true)
        as [[votes2 count2] no_change2] eqn:Hcast2.
      assert (Hpost1' : pending w1 !! (chat_id infoB, message_id infoB) =
                        Some {| submitter := submitter r; admin_votes := votes1 |})
        by by rewrite Hchat, Hmsg.
      pose proof (approve_yes_callback_effect env infoB arg w1 _ _ _ _ Hpost1' Hcast2 Hnotify)
        as H2.
      cbv zeta in H2. rewrite Hchat, Hmsg in H2. fold key w2 in H2. rewrite Hquorum in H2.
      assert (row_of votes1 (sender_id infoA) = Some true /\
              (1 <= count_votes votes1 true)%nat /\
              (no_change1 = false -> (count_votes votes1 true < 2)%nat) /\
              (no_change1 = true -> votes1 = admin_votes r)) as (HrowA & Hone & Hfew & Hsame).
      { destruct no_change1.
        - destruct (cast_admin_vote_no_change _ _ _ _ _ Hcast1) as (-> & _ & Hrow).
          split; [done|]. split; [by eapply count_votes_pos|]. done.
        - destruct (cast_admin_vote_changed _ _ _ _ _ Hcast1) as (Hcount & Hrow & _).
          split; [done|]. split; [by eapply count_votes_pos|]. split; [|done].
          intros _. rewrite vote_result_changed in Hgeb1.
          rewrite Z.geb_leb in Hgeb1. apply Z.leb_gt in Hgeb1. lia. }
      assert (Hgeb2 : Z.geb (vote_result count2 no_change2) 2 = true).
      { destruct no_change2.
        - destruct (cast_admin_vote_no_change _ _ _ _ _ Hcast2) as (_ & _ & HrowB).
          pose proof (count_votes_two _ _ _ _ Hadmins HrowA HrowB) as Htwo.
          destruct no_change1; [rewrite Hsame in Htwo by done|specialize (Hfew eq_refl)]; lia.
        - destruct (cast_admin_vote_changed _ _ _ _ _ Hcast2) as (_ & _ & Hgrow & _).
          rewrite vote_result_changed. apply Z.geb_le. lia. }
      rewrite Hgeb2 in H2. destruct H2 as (Hgone & Hprom2 & Hdel2).
      by rewrite Hprom2, Hdel2, Hprom, Hdel. }
  destruct Hfacts as (Hprom & Hdel & Hgone).
  split; [exact Hserial|]. split; [exact Hprom|]. split; [exact Hdel|].
  split; [exact Hgone|].
  intros info arg' Hchat' Hmsg'.
  apply absent_pending_post. by rewrite Hchat', Hmsg'.
Qed.

(** *** Every interleaving of two first approvals *)

Lemma goto_rank {A} (m : M A) (next : A -> ApprovePc) (w : World) (n : nat) :
  (forall a, pc_rank (next a) <= n)%nat -> (pc_rank (goto m next w).1 <= n)%nat.
Proof.
  intros Hnext. unfold goto. destruct (m w) as [[a|e] w']; simpl; [apply Hnext|lia].
Qed.

Lemma approve_yes_step_rank (env : Env) (info : CallbackInfo) (pc : ApprovePc) (w : World) :
  (pc_rank (approve_yes_step env info pc w).1 <= pred (pc_rank pc))%nat.
Proof.
  destruct pc; unfold approve_yes_step; cbn [pc_rank pred];
    try (apply goto_rank; intros; simpl; lia).
  - apply goto_rank. intros [p|]; simpl; lia.
  - destruct (Z.geb _ _); [|destruct (negb _)]; apply goto_rank; intros; simpl; lia.
  - simpl. lia.
Qed.

Lemma interleave_rank (env : Env) (infoA infoB : CallbackInfo) (schedule : list bool)
    (pcA pcB : ApprovePc) (w : World) :
  let '(pcA', pcB', _) := interleave env infoA infoB schedule pcA pcB w in
  (pc_rank pcA' <= pc_rank pcA - count_occ bool_eq_dec schedule true)%nat /\
  (pc_rank pcB' <= pc_rank pcB - count_occ bool_eq_dec schedule false)%nat.
Proof.
  revert pcA pcB w. induction schedule as [|[|] schedule IH]; intros pcA pcB w; simpl.
  - lia.
  - pose proof (approve_yes_step_rank env infoA pcA w) as Hstep.
    destruct (approve_yes_step env infoA pcA w) as [pcA' w']. simpl in Hstep.
    specialize (IH pcA' pcB w'). destruct (interleave _ _ _ _ _ _ _) as [[? ?] ?]. lia.
  - pose proof (approve_yes_step_rank env infoB pcB w) as Hstep.
    destruct (approve_yes_step env infoB pcB w) as [pcB' w']. simpl in Hstep.
    specialize (IH pcA pcB' w'). destruct (interleave _ _ _ _ _ _ _) as [[? ?] ?]. lia.
Qed.

Lemma pc_rank_finished (pc : ApprovePc) : pc_rank pc = 0%nat -> exists r, pc = Finished r.
Proof. destruct pc; try discriminate. eauto. Qed.

Section Steps.
Variable env : Env.
Variable info : CallbackInfo.

Lemma step_load (w : World) (r : PendingRecord) :
  pending w !! (chat_id info, message_id info) = Some r ->
  approve_yes_step env info AtLoad w =
  (AtVote {| user_id := submitter r; group_id := chat_id info;
             g_message_id := message_id info |}, w).
Proof. intros Hpost. unfold approve_yes_step, from_group. run. by rewrite Hpost. Qed.

Lemma step_vote (w : World) (p : PendingPost) (r : PendingRecord)
    (votes' : list (Z * bool)) (count : nat) (no_change : bool) :
  pending w !! pending_key p = Some r ->
  cast_admin_vote (admin_votes r) (sender_id info) true = (votes', count, no_change) ->
  approve_yes_step env info (AtVote p) w =
  (AtThreshold p (vote_result count no_change),
   and_then (store_vote w (pending_key p) r votes')
     [AnswerCallbackQuery (query_id info) None]).
Proof.
  intros Hpost Hcast. unfold approve_yes_step, set_admin_vote. run.
  rewrite Hpost, Hcast. destruct no_change; run.
  - destruct (cast_admin_vote_no_change _ _ _ _ _ Hcast) as (-> & _ & _).
    by rewrite (store_vote_same _ _ _ Hpost).
  - unfold set_pending. run. reflexivity.
Qed.

Lemma step_threshold_low (w : World) (p : PendingPost) (n : Z) :
  Z.geb n (n_votes env) = false ->
  exists r, approve_yes_step env info (AtThreshold p n) w = (Finished r, w).
Proof.
  intros Hgeb. unfold approve_yes_step. rewrite Hgeb.
  destruct (negb _); unfold keyboard_of; run; [destruct (reply_markup info)|]; run; eauto.
Qed.

Lemma step_threshold_high (w : World) (p : PendingPost) (n : Z) :
  Z.geb n (n_votes env) = true ->
  exists key w',
    approve_yes_step env info (AtThreshold p n) w = (AtCredit p (Some key), w') /\
    pending w' = pending w /\
    count_events is_promotion (trace w') = S (count_events is_promotion (trace w)) /\
    count_events is_deletion (trace w') = count_events is_deletion (trace w).
Proof.
  intros Hgeb. unfold approve_yes_step. rewrite Hgeb.
  unfold send_post_to, fresh_message_id, set_published. run.
  eexists; eexists. split; [reflexivity|]. simpl.
  rewrite !count_events_app. unfold count_events. simpl. repeat split; lia.
Qed.

Lemma step_credit (w : World) (p : PendingPost) (key : Z * Z) :
  exists w',
    approve_yes_step env info (AtCredit p (Some key)) w = (AtNotify p, w') /\
    pending w' = pending w /\ trace w' = trace w.
Proof.
  unfold approve_yes_step, set_bot_data. destruct (comments env); run; eauto.
Qed.

Lemma step_notify (w : World) (p : PendingPost) :
  uncaught env (user_id p) = None ->
  exists w',
    approve_yes_step env info (AtNotify p) w = (AtShow p, w') /\
    pending w' = pending w /\
    count_events is_promotion (trace w') = count_events is_promotion (trace w) /\
    count_events is_deletion (trace w') = count_events is_deletion (trace w).
Proof.
  unfold uncaught, approve_yes_step, notify_user, send_message.
  destruct (deliver env (user_id p)) as [[]|]; try discriminate; intros _; run;
    eexists; (split; [reflexivity|]); simpl;
    rewrite !count_events_app; unfold count_events; simpl; repeat split; lia.
Qed.

Lemma step_show (w : World) (p : PendingPost) :
  exists w',
    approve_yes_step env info (AtShow p) w = (AtDelete p, w') /\
    pending w' = pending w /\
    count_events is_promotion (trace w') = count_events is_promotion (trace w) /\
    count_events is_deletion (trace w') = count_events is_deletion (trace w).
Proof.
  unfold approve_yes_step, show_admins_votes. run.
  eexists; (split; [reflexivity|]); simpl;
    rewrite !count_events_app; unfold count_events; simpl; repeat split; lia.
Qed.

Lemma step_delete (w : World) (p : PendingPost) :
  exists w',
    approve_yes_step env info (AtDelete p) w = (Finished (Ok (None, None, None)), w') /\
    pending w' = delete (pending_key p) (pending w) /\
    count_events is_promotion (trace w') = count_events is_promotion (trace w) /\
    count_events is_deletion (trace w') = S (count_events is_deletion (trace w)).
Proof.
  unfold approve_yes_step, delete_post, set_pending. run.
  eexists; (split; [reflexivity|]); simpl;
    rewrite !count_events_app; unfold count_events; simpl; repeat split; lia.
Qed.
End Steps.

(** ** The transition at the quorum *)

(** C2 (as amended): when the count that [set_admin_vote] returns reaches
    the quorum, the handler runs the transition as a sequence of separate
    statements, with no transaction around them: on the approve path the
    published post is created first, then the submitter is notified, and
    the pending post is deleted last.  A call that runs to its end (the
    notification is delivered or fails with an error that the handler
    catches) has created the published post once, deleted the pending
    post once, and returns no text, no keyboard and no state.  When
    [send_message] raises another error the call ends there: the published
    post is created and the pending post is still in the store.  And a
    call that runs to its end goes through a store that holds both
    records, which is what another call sees in between.  When the count
    is below the quorum and the vote changed, the handler returns the
    keyboard rendered for the new count. *)
Theorem threshold_transition (env : Env) (info : CallbackInfo) (arg : string)
    (w : World) (r : PendingRecord) (approve : bool)
    (votes' : list (Z * bool)) (count : nat) (no_change : bool) :
  let key := (chat_id info, message_id info) in
  let post := {| user_id := submitter r; group_id := chat_id info;
                 g_message_id := message_id info |} in
  let n := vote_result count no_change in
  let handler := if approve then approve_yes_callback else approve_no_callback in
  let voted := <[key := {| submitter := submitter r; admin_votes := votes' |}]> (pending w) in
  let new_post := (cfg_channel_id env, next_message_id w) in
  pending w !! key = Some r ->
  cast_admin_vote (admin_votes r) (sender_id info) approve = (votes', count, no_change) ->
  (n_votes env <= n ->
   uncaught env (submitter r) = None ->
   exists w',
     handler env info arg w = (Ok (None, None, None), w') /\
     pending w' = delete key (pending w) /\
     published w' =
       (if approve then <[new_post := []]> (published w) else published w) /\
     count_events is_promotion (trace w') =
       ((if approve then 1 else 0) + count_events is_promotion (trace w))%nat /\
     count_events is_deletion (trace w') = S (count_events is_deletion (trace w)) /\
     count_events is_edit (trace w') = count_events is_edit (trace w)) /\
  (n_votes env <= n ->
   forall e, uncaught env (submitter r) = Some e ->
   exists w',
     handler env info arg w = (Raise (TelegramErr e), w') /\
     pending w' = voted /\
     published w' =
       (if approve then <[new_post := []]> (published w) else published w) /\
     count_events is_promotion (trace w') =
       ((if approve then 1 else 0) + count_events is_promotion (trace w))%nat /\
     count_events is_deletion (trace w') = count_events is_deletion (trace w)) /\
  (approve = true -> n_votes env <= n ->
   exists w3,
     approve_yes_steps env 3 info AtLoad w = (AtCredit post (Some new_post), w3) /\
     pending w3 = voted /\
     published w3 = <[new_post := []]> (published w)) /\
  (n < n_votes env -> n <> -1 ->
   forall markup, reply_markup info = Some markup ->
   exists w',
     handler env info arg w =
       (Ok (None,
            Some (update_approve_kb env (inline_keyboard markup) post approve n),
            None), w') /\
     pending w' = voted /\
     published w' = published w /\
     n = Z.of_nat (count_votes votes' approve) /\
     count_events is_promotion (trace w') = count_events is_promotion (trace w) /\
     count_events is_deletion (trace w') = count_events is_deletion (trace w)).
Proof.
  intros key post n handler voted new_post Hpost Hcast.
  assert (Hrun_yes := approve_yes_callback_run env info arg w r votes' count no_change Hpost).
  assert (Hrun_no := approve_no_callback_run env info arg w r votes' count no_change Hpost).
  cbv zeta in Hrun_yes, Hrun_no. fold key post n in Hrun_yes, Hrun_no.
  split; [|split; [|split]].
  - intros Hquorum Hnotify. apply Z.geb_le in Hquorum.
    destruct approve; subst handler; [rewrite (Hrun_yes Hcast)|rewrite (Hrun_no Hcast)];
      rewrite Hquorum, Hnotify; eexists; (split; [reflexivity|]); simpl;
      rewrite !count_events_app;
      (split; [apply delete_insert_eq|]); (split; [reflexivity|]).
    + pose proof (notification_neither env (submitter r)
        "Il tuo ultimo post è stato pubblicato su @Spotted_DMI"
        "Notifying the user on approve_yes") as (Hp & Hd & He).
      unfold count_events. simpl. rewrite Hp, Hd, He. simpl. lia.
    + pose proof (notification_neither env (submitter r)
        ("Il tuo ultimo post è stato rifiutato" ++ String "010" ""
         ++ "Puoi controllare le regole con /rules")
        "Notifying the user on approve_no") as (Hp & Hd & He).
      unfold count_events. simpl. rewrite Hp, Hd, He. simpl. lia.
  - intros Hquorum e Hnotify. apply Z.geb_le in Hquorum.
    destruct approve; subst handler; [rewrite (Hrun_yes Hcast)|rewrite (Hrun_no Hcast)];
      rewrite Hquorum, Hnotify; eexists; (split; [reflexivity|]); simpl;
      rewrite !count_events_app; unfold count_events; simpl;
      repeat split; lia.
  - intros Happrove Hquorum. rewrite Happrove in Hcast.
    apply Z.geb_le in Hquorum. fold n in Hquorum.
    unfold approve_yes_steps.
    rewrite (step_load env info w r Hpost). fold post.
    rewrite (step_vote env info w post r votes' count no_change Hpost Hcast). fold n.
    unfold approve_yes_step. rewrite Hquorum.
    unfold send_post_to, fresh_message_id, set_published. run.
    eexists. split; [reflexivity|]. split; reflexivity.
  - intros Hbelow Hchanged markup Hmarkup.
    assert (Z.geb n (n_votes env) = false) as Hgeb.
    { rewrite Z.geb_leb. apply Z.leb_gt. lia. }
    assert (Z.eqb n (-1) = false) as Heqb by by apply Z.eqb_neq.
    assert (n = Z.of_nat (count_votes votes' approve)) as Hcount.
    { subst n. destruct no_change; [done|].
      destruct (cast_admin_vote_changed _ _ _ _ _ Hcast) as (-> & _). reflexivity. }
    destruct approve; subst handler; [rewrite (Hrun_yes Hcast)|rewrite (Hrun_no Hcast)];
      rewrite Hgeb, Heqb, Hmarkup; simpl; eexists; (split; [reflexivity|]); simpl;
      rewrite !count_events_app; unfold count_events; simpl;
      repeat split; try done; lia.
Qed.

Lemma threshold_transition_witness :
  (exists w',
     approve_yes_callback ex_env (ex_info "meme_approve_yes," (-2002) 7 2) ""
       (ex_world [(1, true)] None) = (Ok (None, None, None), w') /\
     pending w' = delete (-2002, 7) (pending (ex_world [(1, true)] None)) /\
     published w' = <[(-1001, 1000) := []]> (published (ex_world [(1, true)] None))) /\
  (exists w',
     approve_yes_callback ex_env_timeout (ex_info "meme_approve_yes," (-2002) 7 2) ""
       (ex_world [(1, true)] None) = (Raise (TelegramErr TimedOut), w') /\
     pending w' !! (-2002, 7)
     = Some {| submitter := 50; admin_votes := [(1, true); (2, true)] |} /\
     published w' = <[(-1001, 1000) := []]> (published (ex_world [(1, true)] None))) /\
  (exists w',
     approve_no_callback ex_env (ex_info "meme_approve_no," (-2002) 7 2) ""
       (ex_world [(1, true)] None)
     = (Ok (None, Some (InlineKeyboardMarkup [[("reject", "")]]), None), w') /\
     pending w' !! (-2002, 7)
     = Some {| submitter := 50; admin_votes := [(1, true); (2, false)] |}).
Proof.
  split; [|split].
  - destruct (threshold_transition ex_env (ex_info "meme_approve_yes," (-2002) 7 2) ""
                (ex_world [(1, true)] None)
                {| submitter := 50; admin_votes := [(1, true)] |}
                true [(1, true); (2, true)] 2 false eq_refl eq_refl) as (Hfires & _).
    destruct (Hfires ltac:(simpl; lia) eq_refl)
      as (w' & Hrun & Hpending & Hpublished & _).
    exists w'. repeat split; assumption.
  - destruct (threshold_transition ex_env_timeout (ex_info "meme_approve_yes," (-2002) 7 2) ""
                (ex_world [(1, true)] None)
                {| submitter := 50; admin_votes := [(1, true)] |}
                true [(1, true); (2, true)] 2 false eq_refl eq_refl) as (_ & Hfails & _).
    destruct (Hfails ltac:(simpl; lia) TimedOut eq_refl)
      as (w' & Hrun & Hpending & Hpublished & _).
    exists w'. split; [exact Hrun|]. split; [|exact Hpublished].
    rewrite Hpending. apply lookup_insert_eq.
  - destruct (threshold_transition ex_env (ex_info "meme_approve_no," (-2002) 7 2) ""
                (ex_world [(1, true)] None)
                {| submitter := 50; admin_votes := [(1, true)] |}
                false [(1, true); (2, false)] 1 false eq_refl eq_refl)
      as (_ & _ & _ & Hbelow).
    destruct (Hbelow ltac:(simpl; lia) ltac:(simpl; lia) (InlineKeyboardMarkup []) eq_refl)
      as (w' & Hrun & Hpending & _).
    exists w'. split; [exact Hrun|]. rewrite Hpending. apply lookup_insert_eq.
Defined.

(** C2 (as stated) fails: the transition is not atomic.  Quorum 2, a
    pending post with one approval, and the approval of admin 2.  When
    the notification of the submitter times out, the call raises after it
    has created the published post: the pending post stays in the store
    and nothing is deleted.  And in a call that runs to its end, the store
    after the third statement holds the published post and the pending
    post. *)
Lemma transition_not_atomic :
  let info := ex_info "meme_approve_yes," (-2002) 7 2 in
  let w := ex_world [(1, true)] None in
  let voted := {| submitter := 50; admin_votes := [(1, true); (2, true)] |} in
  let failed := approve_yes_callback ex_env_timeout info "" w in
  let '(pc, w3) := approve_yes_steps ex_env 3 info AtLoad w in
  failed.1 = Raise (TelegramErr TimedOut) /\
  published failed.2 !! (-1001, 1000) = Some [] /\
  pending failed.2 !! (-2002, 7) = Some voted /\
  count_events is_deletion (trace failed.2) = 0%nat /\
  pc = AtCredit {| user_id := 50; group_id := -2002; g_message_id := 7 |}
         (Some (-1001, 1000)) /\
  published w3 !! (-1001, 1000) = Some [] /\
  pending w3 !! (-2002, 7) = Some voted.
Proof. vm_compute. repeat split. Qed.

Section Race.
Variable env : Env.
Variable post : PendingPost.
Hypothesis Hquorum : n_votes env = 2.

Section OneRun.
Variable info : CallbackInfo.
Hypothesis Hchat : chat_id info = group_id post.
Hypothesis Hmsg : message_id info = g_message_id post.

Lemma run_key : (chat_id info, message_id info) = pending_key post.
Proof. unfold pending_key. by rewrite Hchat, Hmsg. Qed.

Lemma run_loaded_post (r : PendingRecord) :
  submitter r = user_id post ->
  {| user_id := submitter r; group_id := chat_id info; g_message_id := message_id info |}
  = post.
Proof. intros ->. rewrite Hchat, Hmsg. by destruct post. Qed.

Lemma counts_and_then (w : World) (e : Event) (p d : nat) :
  is_promotion e = false -> is_deletion e = false ->
  counts w p d -> counts (and_then w [e]) p d.
Proof.
  intros Hp Hd [Hprom Hdel]. unfold counts. simpl.
  rewrite !count_events_app. unfold count_events at 2 4. simpl. rewrite Hp, Hd. simpl.
  split; lia.
Qed.

Lemma waiting_step_none (pc : ApprovePc) (w : World) (p d : nat) :
  waiting post pc -> stored w post 0 -> counts w p d ->
  let '(pc', w') := approve_yes_step env info pc w in
  (waiting post pc' /\ stored w' post 0 /\ counts w' p d) \/
  (voted_first post pc' /\ one_approval w' post (sender_id info) /\ counts w' p d).
Proof.
  intros [-> | ->] (r & Hpost & Hsub & Hone & Hcount) Hcounts.
  - rewrite (step_load env info w r) by by rewrite run_key.
    left. rewrite (run_loaded_post r Hsub). split; [by right|]. split; [|done].
    by exists r.
  - destruct (cast_admin_vote (admin_votes r) (sender_id info) true)
      as [[votes' count] no_change] eqn:Hcast.
    rewrite (step_vote env info w post r votes' count no_change Hpost Hcast).
    destruct no_change.
    + destruct (cast_admin_vote_no_change _ _ _ _ _ Hcast) as (_ & _ & Hrow).
      pose proof (count_votes_pos _ _ _ Hrow). lia.
    + destruct (cast_admin_vote_exact _ _ _ _ _ Hone Hcast) as (-> & Hone').
      destruct (cast_admin_vote_changed _ _ _ _ _ Hcast) as (Hcount' & Hrow' & _).
      right. rewrite vote_result_changed, Hcount. split; [by left|]. split.
      * eexists. split; [simpl; apply lookup_insert_eq|]. simpl.
        split; [done|]. split; [done|]. split; [|done]. rewrite <- Hcount'. by rewrite Hcount.
      * apply counts_and_then; [done|done|exact Hcounts].
Qed.

Lemma waiting_step_one (pc : ApprovePc) (w : World) (other : Z) (p d : nat) :
  waiting post pc -> one_approval w post other -> other <> sender_id info ->
  counts w p d ->
  let '(pc', w') := approve_yes_step env info pc w in
  (waiting post pc' /\ one_approval w' post other /\ counts w' p d) \/
  (pc' = AtThreshold post 2 /\ counts w' p d).
Proof.
  intros [-> | ->] (r & Hpost & Hsub & Hone & Hcount & Hrow) Hother Hcounts.
  - rewrite (step_load env info w r) by by rewrite run_key.
    left. rewrite (run_loaded_post r Hsub). split; [by right|]. split; [|done].
    by exists r.
  - destruct (cast_admin_vote (admin_votes r) (sender_id info) true)
      as [[votes' count] no_change] eqn:Hcast.
    rewrite (step_vote env info w post r votes' count no_change Hpost Hcast).
    destruct no_change.
    + destruct (cast_admin_vote_no_change _ _ _ _ _ Hcast) as (_ & _ & Hmine).
      pose proof (count_votes_two _ _ _ _ Hother Hrow Hmine). lia.
    + destruct (cast_admin_vote_exact _ _ _ _ _ Hone Hcast) as (-> & _).
      right. rewrite vote_result_changed, Hcount. split; [done|].
      apply counts_and_then; [done|done|exact Hcounts].
Qed.

Lemma voted_first_step (pc : ApprovePc) (w : World) :
  voted_first post pc ->
  exists pc', approve_yes_step env info pc w = (pc', w) /\ voted_first post pc'.
Proof.
  intros [-> | (r & ->)].
  - destruct (step_threshold_low env info w post 1) as (r & Hstep).
    { by rewrite Hquorum. }
    exists (Finished r). split; [done|]. right. eauto.
  - exists (Finished r). split; [done|]. right. eauto.
Qed.

Hypothesis Hnotify : uncaught env (user_id post) = None.

Lemma promoting_step (pc : ApprovePc) (w : World) (p d : nat) :
  promoting post pc w p d ->
  let '(pc', w') := approve_yes_step env info pc w in promoting post pc' w' p d.
Proof.
  intros [(-> & Hp & Hd) | [(Hpc & Hp & Hd) | ((r & ->) & Hgone & Hcounts)]].
  - destruct (step_threshold_high env info w post 2) as (key & w' & -> & _ & Hp' & Hd').
    { by rewrite Hquorum. }
    right; left. split; [left; eauto|]. split; lia.
  - destruct Hpc as [(key & ->) | [-> | [-> | ->]]].
    + destruct (step_credit env info w post key) as (w' & -> & _ & Htrace).
      right; left. split; [by right; left|]. unfold counts. by rewrite Htrace.
    + destruct (step_notify env info w post Hnotify) as (w' & -> & _ & Hp' & Hd').
      right; left. split; [by right; right; left|]. split; lia.
    + destruct (step_show env info w post) as (w' & -> & _ & Hp' & Hd').
      right; left. split; [by right; right; right|]. split; lia.
    + destruct (step_delete env info w post) as (w' & -> & Hpending & Hp' & Hd').
      right; right. split; [eauto|]. split; [by rewrite Hpending, lookup_delete_eq|].
      split; lia.
  - simpl. right; right. eauto.
Qed.
End OneRun.
End Race.

Section TwoRuns.
Variable env : Env.
Variables infoA infoB : CallbackInfo.
Variable post : PendingPost.
Variables p0 d0 : nat.
Hypothesis Hquorum : n_votes env = 2.
Hypothesis HchatA : chat_id infoA = group_id post.
Hypothesis HmsgA : message_id infoA = g_message_id post.
Hypothesis HchatB : chat_id infoB = group_id post.
Hypothesis HmsgB : message_id infoB = g_message_id post.
Hypothesis Hadmins : sender_id infoA <> sender_id infoB.
Hypothesis Hnotify : uncaught env (user_id post) = None.

Lemma race_inv_first (pcA pcB : ApprovePc) (w : World) :
  race_inv post (sender_id infoA) (sender_id infoB) p0 d0 pcA pcB w ->
  let '(pcA', w') := approve_yes_step env infoA pcA w in
  race_inv post (sender_id infoA) (sender_id infoB) p0 d0 pcA' pcB w'.
Proof.
  intros [(HA & HB & Hstored & Hcounts) | [(HA & HB & Hone & Hcounts)
         | [(HB & HA & Hone & Hcounts) | [(HA & HB) | (HB & HA)]]]].
  - pose proof (waiting_step_none env post infoA HchatA HmsgA pcA w p0 d0 HA Hstored Hcounts)
      as Hstep.
    destruct (approve_yes_step env infoA pcA w) as [pcA' w'].
    destruct Hstep as [(? & ? & ?) | (? & ? & ?)]; [by left|by right; left].
  - destruct (voted_first_step env post Hquorum infoA pcA w HA) as (pcA' & -> & HA').
    by right; left.
  - pose proof (waiting_step_one env post infoA HchatA HmsgA pcA w (sender_id infoB) p0 d0
                  HA Hone ltac:(congruence) Hcounts) as Hstep.
    destruct (approve_yes_step env infoA pcA w) as [pcA' w'].
    destruct Hstep as [(? & ? & ?) | (-> & ?)]; [by right; right; left|].
    right; right; right; right. split; [done|]. by left.
  - destruct (voted_first_step env post Hquorum infoA pcA w HA) as (pcA' & -> & HA').
    by right; right; right; left.
  - pose proof (promoting_step env post Hquorum infoA Hnotify pcA w p0 d0 HA) as Hstep.
    destruct (approve_yes_step env infoA pcA w) as [pcA' w'].
    by right; right; right; right.
Qed.

Lemma race_inv_second (pcA pcB : ApprovePc) (w : World) :
  race_inv post (sender_id infoA) (sender_id infoB) p0 d0 pcA pcB w ->
  let '(pcB', w') := approve_yes_step env infoB pcB w in
  race_inv post (sender_id infoA) (sender_id infoB) p0 d0 pcA pcB' w'.
Proof.
  intros [(HA & HB & Hstored & Hcounts) | [(HA & HB & Hone & Hcounts)
         | [(HB & HA & Hone & Hcounts) | [(HA & HB) | (HB & HA)]]]].
  - pose proof (waiting_step_none env post infoB HchatB HmsgB pcB w p0 d0 HB Hstored Hcounts)
      as Hstep.
    destruct (approve_yes_step env infoB pcB w) as [pcB' w'].
    destruct Hstep as [(? & ? & ?) | (? & ? & ?)]; [by left|by right; right; left].
  - pose proof (waiting_step_one env post infoB HchatB HmsgB pcB w (sender_id infoA) p0 d0
                  HB Hone Hadmins Hcounts) as Hstep.
    destruct (approve_yes_step env infoB pcB w) as [pcB' w'].
    destruct Hstep as [(? & ? & ?) | (-> & ?)]; [by right; left|].
    right; right; right; left. split; [done|]. by left.
  - destruct (voted_first_step env post Hquorum infoB pcB w HB) as (pcB' & -> & HB').
    by right; right; left.
  - pose proof (promoting_step env post Hquorum infoB Hnotify pcB w p0 d0 HB) as Hstep.
    destruct (approve_yes_step env infoB pcB w) as [pcB' w'].
    by right; right; right; left.
  - destruct (voted_first_step env post Hquorum infoB pcB w HB) as (pcB' & -> & HB').
    by right; right; right; right.
Qed.

Lemma race_inv_interleave (schedule : list bool) (pcA pcB : ApprovePc) (w : World) :
  race_inv post (sender_id infoA) (sender_id infoB) p0 d0 pcA pcB w ->
  let '(pcA', pcB', w') := interleave env infoA infoB schedule pcA pcB w in
  race_inv post (sender_id infoA) (sender_id infoB) p0 d0 pcA' pcB' w'.
Proof.
  revert pcA pcB w. induction schedule as [|[|] schedule IH]; intros pcA pcB w Hinv; simpl.
  - exact Hinv.
  - pose proof (race_inv_first pcA pcB w Hinv) as Hstep.
    destruct (approve_yes_step env infoA pcA w) as [pcA' w']. by apply IH.
  - pose proof (race_inv_second pcA pcB w Hinv) as Hstep.
    destruct (approve_yes_step env infoB pcB w) as [pcB' w']. by apply IH.
Qed.

Lemma race_inv_finished (rA rB : Res Reply) (w : World) :
  race_inv post (sender_id infoA) (sender_id infoB) p0 d0 (Finished rA) (Finished rB) w ->
  pending w !! pending_key post = None /\ counts w (S p0) (S d0).
Proof.
  assert (Hwaiting : forall r, ~ waiting post (Finished r)) by (intros r [?|?]; discriminate).
  assert (Hdone : forall r w', promoting post (Finished r) w' p0 d0 ->
                     pending w' !! pending_key post = None /\ counts w' (S p0) (S d0)).
  { intros r w' [(? & _) | [(Hpc & _) | (_ & ? & ?)]]; [discriminate| |done].
    destruct Hpc as [(? & ?) | [? | [? | ?]]]; discriminate. }
  intros [(HA & _) | [(_ & HB & _) | [(_ & HA & _) | [(_ & HB) | (_ & HA)]]]].
  - by destruct (Hwaiting rA).
  - by destruct (Hwaiting rB).
  - by destruct (Hwaiting rA).
  - by eapply Hdone.
  - by eapply Hdone.
Qed.
End TwoRuns.

(** Two runs under any schedule that lets both finish, on a post without
    approvals. *)
Lemma overlapping_first_approvals (env : Env) (infoA infoB : CallbackInfo) (w : World)
    (r : PendingRecord) (schedule : list bool) :
  let key := (chat_id infoA, message_id infoA) in
  n_votes env = 2 ->
  chat_id infoB = chat_id infoA ->
  message_id infoB = message_id infoA ->
  sender_id infoA <> sender_id infoB ->
  pending w !! key = Some r ->
  uncaught env (submitter r) = None ->
  one_row_each (admin_votes r) ->
  count_votes (admin_votes r) true = 0%nat ->
  (7 <= count_occ bool_eq_dec schedule true)%nat ->
  (7 <= count_occ bool_eq_dec schedule false)%nat ->
  exists rA rB w',
    interleave env infoA infoB schedule AtLoad AtLoad w = (Finished rA, Finished rB, w') /\
    count_events is_promotion (trace w') = S (count_events is_promotion (trace w)) /\
    count_events is_deletion (trace w') = S (count_events is_deletion (trace w)) /\
    pending w' !! key = None.
Proof.
  intros key Hquorum Hchat Hmsg Hadmins Hpost Hnotify Hone Hcount HrunsA HrunsB.
  set (post := {| user_id := submitter r; group_id := chat_id infoA;
                  g_message_id := message_id infoA |}).
  pose proof (interleave_rank env infoA infoB schedule AtLoad AtLoad w) as Hrank.
  pose proof (race_inv_interleave env infoA infoB post
                (count_events is_promotion (trace w)) (count_events is_deletion (trace w))
                Hquorum eq_refl eq_refl Hchat Hmsg Hadmins Hnotify schedule AtLoad AtLoad w)
    as Hinv.
  destruct (interleave env infoA infoB schedule AtLoad AtLoad w) as [[pcA pcB] w'].
  destruct Hrank as (HrankA & HrankB). simpl in HrankA, HrankB.
  destruct (pc_rank_finished pcA) as (rA & ->); [lia|].
  destruct (pc_rank_finished pcB) as (rB & ->); [lia|].
  exists rA, rB, w'. split; [reflexivity|].
  assert (Hfinal := Hinv ltac:(left; split; [by left|]; split; [by left|];
                                split; [by exists r|done])).
  destruct (race_inv_finished _ _ _ _ _ _ _ _ Hfinal) as (Hgone & Hp & Hd).
  by repeat split.
Qed.

(** C1 (as amended): quorum 2, two admins, and a submitter whose
    notification is delivered or fails with an error that the handler
    catches.  On a pending post that has no approval yet, the two runs of
    [approve_yes_callback] give one promotion and one deletion under every
    schedule that lets both finish.
    On a pending post whose approvals are below the quorum they do so when
    they do not overlap (the schedule runs the statements of one and then
    the statements of the other).  In both cases the post is gone
    afterwards, and every later vote on it returns at once and changes
    nothing. *)
Theorem approvals_promote_once (env : Env) (infoA infoB : CallbackInfo)
    (w : World) (r : PendingRecord) :
  let key := (chat_id infoA, message_id infoA) in
  let promoted_once (w' : World) :=
    count_events is_promotion (trace w') = S (count_events is_promotion (trace w)) /\
    count_events is_deletion (trace w') = S (count_events is_deletion (trace w)) /\
    pending w' !! key = None /\
    (forall info arg,
       chat_id info = chat_id infoA -> message_id info = message_id infoA ->
       approve_yes_callback env info arg w' = (Ok (None, None, None), w') /\
       approve_no_callback env info arg w' = (Ok (None, None, None), w')) in
  n_votes env = 2 ->
  chat_id infoB = chat_id infoA ->
  message_id infoB = message_id infoA ->
  sender_id infoA <> sender_id infoB ->
  pending w !! key = Some r ->
  uncaught env (submitter r) = None ->
  (one_row_each (admin_votes r) ->
   count_votes (admin_votes r) true = 0%nat ->
   forall schedule,
     (7 <= count_occ bool_eq_dec schedule true)%nat ->
     (7 <= count_occ bool_eq_dec schedule false)%nat ->
     exists rA rB w',
       interleave env infoA infoB schedule AtLoad AtLoad w = (Finished rA, Finished rB, w') /\
       promoted_once w') /\
  ((count_votes (admin_votes r) true < 2)%nat ->
   exists rA rB w',
     interleave env infoA infoB (replicate 7 true ++ replicate 7 false) AtLoad AtLoad w
     = (Finished rA, Finished rB, w') /\
     w' = (approve_yes_callback env infoB "" (approve_yes_callback env infoA "" w).2).2 /\
     promoted_once w').
Proof.
  intros key promoted_once Hquorum Hchat Hmsg Hadmins Hpost Hnotify. split.
  - intros Hone Hcount schedule HrunsA HrunsB.
    destruct (overlapping_first_approvals env infoA infoB w r schedule
                Hquorum Hchat Hmsg Hadmins Hpost Hnotify Hone Hcount HrunsA HrunsB)
      as (rA & rB & w' & Hrun & Hprom & Hdel & Hgone).
    exists rA, rB, w'. split; [exact Hrun|].
    split; [exact Hprom|]. split; [exact Hdel|]. split; [exact Hgone|].
    intros info arg Hchat' Hmsg'. apply absent_pending_post. by rewrite Hchat', Hmsg'.
  - intros Hbelow.
    destruct (serial_approvals env infoA infoB "" w r
                Hquorum Hchat Hmsg Hadmins Hpost Hnotify Hbelow)
      as ((rA & rB & Hrun) & Hprom & Hdel & Hgone & Hlater).
    eexists rA, rB, _. split; [exact Hrun|]. split; [reflexivity|].
    split; [exact Hprom|]. split; [exact Hdel|]. split; [exact Hgone|].
    exact Hlater.
Qed.

Lemma approvals_promote_once_witness :
  let infoA := ex_info "meme_approve_yes," (-2002) 7 1 in
  let infoB := ex_info "meme_approve_yes," (-2002) 7 2 in
  (exists rA rB w',
     interleave ex_env infoA infoB
       [true; false; false; true; false; true; true; false; false; false; false;
        true; true; true]
       AtLoad AtLoad (ex_world [] None) = (Finished rA, Finished rB, w') /\
     count_events is_promotion (trace w') = 1%nat /\
     count_events is_deletion (trace w') = 1%nat /\
     pending w' !! (-2002, 7) = None) /\
  (exists rA rB w',
     interleave ex_env infoA infoB (replicate 7 true ++ replicate 7 false)
       AtLoad AtLoad (ex_world [(0, true)] None) = (Finished rA, Finished rB, w') /\
     count_events is_promotion (trace w') = 1%nat /\
     count_events is_deletion (trace w') = 1%nat /\
     pending w' !! (-2002, 7) = None).
Proof.
  intros infoA infoB. split.
  - destruct (approvals_promote_once ex_env infoA infoB (ex_world [] None)
                {| submitter := 50; admin_votes := [] |}
                eq_refl eq_refl eq_refl ltac:(discriminate) eq_refl eq_refl) as (Hany & _).
    destruct (Hany ltac:(intros k; simpl; lia) eq_refl
                [true; false; false; true; false; true; true; false; false; false; false;
                 true; true; true]
                ltac:(simpl; lia) ltac:(simpl; lia))
      as (rA & rB & w' & Hrun & Hprom & Hdel & Hgone & _).
    exists rA, rB, w'. repeat split; assumption.
  - destruct (approvals_promote_once ex_env infoA infoB (ex_world [(0, true)] None)
                {| submitter := 50; admin_votes := [(0, true)] |}
                eq_refl eq_refl eq_refl ltac:(discriminate) eq_refl eq_refl)
      as (_ & Hserial).
    destruct (Hserial ltac:(unfold count_votes; simpl; lia))
      as (rA & rB & w' & Hrun & _ & Hprom & Hdel & Hgone & _).
    exists rA, rB, w'. repeat split; assumption.
Defined.

(** C1 (as stated) fails: quorum 2, a pending post that admin 0 has
    approved.  Admins 1 and 2 approve in two runs of the handler that
    overlap: each run loads the post and casts its vote (counts 2 and 3)
    before the other deletes the post, so both runs pass the threshold
    test and both publish the post. *)
Lemma overlapping_approvals_promote_twice :
  let infoA := ex_info "meme_approve_yes," (-2002) 7 1 in
  let infoB := ex_info "meme_approve_yes," (-2002) 7 2 in
  let w := ex_world [(0, true)] None in
  let schedule :=
    [true; true; false; false;
     true; true; true; true; true;
     false; false; false; false; false] in
  let '(pcA, pcB, w') := interleave ex_env infoA infoB schedule AtLoad AtLoad w in
  (count_votes [(0%Z, true)] true < 2)%nat /\
  pcA = Finished (Ok (None, None, None)) /\
  pcB = Finished (Ok (None, None, None)) /\
  count_events is_promotion (trace w') = 2%nat /\
  count_events is_deletion (trace w') = 2%nat /\
  published w' !! (-1001, 1000) = Some [] /\
  published w' !! (-1001, 1001) = Some [].
Proof. vm_compute. repeat split; lia. Qed.

(** The condition on the notification is needed, also for runs that do
    not overlap: quorum 2, a pending post that admin 0 has approved, and
    a submitter whose notification times out.  The approval of admin 1
    publishes the post and the error ends the call before the post is
    deleted; so does the approval of admin 2 after it. *)
Lemma timed_out_approvals_promote_twice :
  let infoA := ex_info "meme_approve_yes," (-2002) 7 1 in
  let infoB := ex_info "meme_approve_yes," (-2002) 7 2 in
  let first := approve_yes_callback ex_env_timeout infoA "" (ex_world [(0, true)] None) in
  let second := approve_yes_callback ex_env_timeout infoB "" first.2 in
  uncaught ex_env_timeout 50 = Some TimedOut /\
  first.1 = Raise (TelegramErr TimedOut) /\
  second.1 = Raise (TelegramErr TimedOut) /\
  count_events is_promotion (trace second.2) = 2%nat /\
  count_events is_deletion (trace second.2) = 0%nat /\
  pending second.2 !! (-2002, 7)
  = Some {| submitter := 50; admin_votes := [(0, true); (1, true); (2, true)] |}.
Proof. vm_compute. repeat split. Qed.

(** ** The invariant of the pending posts *)

Lemma cast_admin_vote_other_side (votes votes' : list (Z * bool)) (a : Z) (v v' : bool)
    (n : nat) (no_change : bool) :
  cast_admin_vote votes a v = (votes', n, no_change) -> v' <> v ->
  (count_votes votes' v' <= count_votes votes v')%nat.
Proof.
  unfold cast_admin_vote. intros Hcast Hne.
  destruct (row_of votes a) as [v0|].
  - destruct (Bool.eqb v0 v); injection Hcast as <- _ _; [done|].
    by apply count_votes_update_other.
  - injection Hcast as <- _ _. by rewrite count_votes_insert_other.
Qed.

(** The admin handlers keep every pending post below the quorum when no
    notification leaves them with an error: a vote that reaches the quorum
    removes the post. *)
Lemma admin_handlers_keep_below_quorum (env : Env) (info : CallbackInfo) (arg : string)
    (w : World) (approve : bool) :
  let handler := if approve then approve_yes_callback else approve_no_callback in
  (forall chat, uncaught env chat = None) ->
  below_quorum env w -> below_quorum env (handler env info arg w).2.
Proof.
  intros handler Hnotify Hbelow.
  destruct (pending w !! (chat_id info, message_id info)) as [r|] eqn:Hpost.
  - destruct (cast_admin_vote (admin_votes r) (sender_id info) approve)
      as [[votes' count] no_change] eqn:Hcast.
    assert (handler env info arg w =
            (if approve then approve_yes_callback else approve_no_callback) env info arg w)
      as -> by reflexivity.
    assert (Hkept : forall w',
      pending w' = <[(chat_id info, message_id info) :=
                       {| submitter := submitter r; admin_votes := votes' |}]> (pending w) ->
      Z.geb (vote_result count no_change) (n_votes env) = false ->
      below_quorum env w').
    { intros w' Hpending Hgeb key r' side. rewrite Hpending, lookup_insert.
      case_decide as Hkey; [|apply Hbelow]. intros [= <-]. simpl.
      rewrite Z.geb_leb in Hgeb. apply Z.leb_gt in Hgeb.
      destruct (decide (side = approve)) as [->|Hside].
      - destruct no_change.
        + destruct (cast_admin_vote_no_change _ _ _ _ _ Hcast) as (-> & _ & _).
          by apply (Hbelow _ _ _ Hpost).
        + destruct (cast_admin_vote_changed _ _ _ _ _ Hcast) as (<- & _).
          by rewrite vote_result_changed in Hgeb.
      - pose proof (cast_admin_vote_other_side _ _ _ _ _ _ _ Hcast Hside) as Hle.
        pose proof (Hbelow _ _ side Hpost). lia. }
    assert (Hgone : forall w',
      pending w' = delete (chat_id info, message_id info) (pending w) ->
      below_quorum env w').
    { intros w' Hpending key r' side. rewrite Hpending, lookup_delete.
      case_decide; [done|]. apply Hbelow. }
    destruct approve.
    all: [> rewrite (approve_yes_callback_run env info arg w r votes' count no_change Hpost Hcast)
          | rewrite (approve_no_callback_run env info arg w r votes' count no_change Hpost Hcast)].
    all: rewrite (Hnotify (submitter r)).
    all: destruct (Z.geb _ _) eqn:Hgeb; simpl;
      [apply Hgone; simpl; apply delete_insert_eq|].
    all: destruct (negb _); simpl; try destruct (reply_markup info); simpl.
    all: by apply Hkept.
  - destruct (absent_pending_post env info arg w Hpost) as (Hyes & Hno).
    destruct approve; subst handler; [rewrite Hyes|rewrite Hno]; exact Hbelow.
Qed.

(** ** The scenario of the specification, run *)

Example split_comma_trailing : split_comma "meme_approve_yes," = ["meme_approve_yes"; ""].
Proof. reflexivity. Qed.

Example decode_legacy : decode "meme_vote_no" = ["meme_vote"; "0"].
Proof. reflexivity. Qed.

(** Quorum 2: admin 1 approves (count 1, the keyboard is edited), admin 2
    approves (count 2, the post is published and deleted), admin 3 votes
    on a post that is gone. *)
Example scenario_two_approvals :
  let w0 := ex_world [] None in
  let '(out1, w1) := meme_callback ex_env (ex_info "meme_approve_yes," (-2002) 7 1) w0 in
  let '(out2, w2) := meme_callback ex_env (ex_info "meme_approve_yes," (-2002) 7 2) w1 in
  let '(out3, w3) := meme_callback ex_env (ex_info "meme_approve_no," (-2002) 7 3) w2 in
  out1 = Ok None /\ out2 = Ok None /\ out3 = Ok None /\
  pending w1 !! (-2002, 7) = Some {| submitter := 50; admin_votes := [(1, true)] |} /\
  pending w2 !! (-2002, 7) = None /\
  published w2 !! (-1001, 1000) = Some [] /\
  bot_data w2 !! (-1001, 1000) = Some 50 /\
  trace w2 =
    [AnswerCallbackQuery 1 None;
     EditMessageReplyMarkup (-2002) 7
       (Some (InlineKeyboardMarkup [[("approve", "")]]));
     AnswerCallbackQuery 1 None;
     SendPostToChannel (-1001) 1000;
     SendMessage 50 "Il tuo ultimo post è stato pubblicato su @Spotted_DMI";
     ShowAdminsVotes (-2002) 7 true [1; 2];
     DeletePost (-2002) 7] /\
  trace w3 = trace w2.
Proof. vm_compute. repeat split. Qed.

(** A vote flip below the quorum: admin 1 rejects and then approves; the
    admin is counted for the approvals only. *)
Example scenario_vote_flip :
  let w0 := ex_world [] None in
  let '(_, w1) := meme_callback ex_env (ex_info "meme_approve_no," (-2002) 7 1) w0 in
  let '(_, w2) := meme_callback ex_env (ex_info "meme_approve_yes," (-2002) 7 1) w1 in
  pending w2 !! (-2002, 7) = Some {| submitter := 50; admin_votes := [(1, true)] |}.
Proof. vm_compute. reflexivity. Qed.

(** * What the routers and the handlers keep *)

(** ** Composing what a call keeps *)

Section Keeps.
Context (R : relation World) `{!PreOrder R}.

Lemma keeps_ret {A} (a : A) : keeps R (ret a).
Proof. intros w. simpl. reflexivity. Qed.

Lemma keeps_raise {A} (e : exn) : keeps R (raise (A := A) e).
Proof. intros w. simpl. reflexivity. Qed.

Lemma keeps_get_world : keeps R get_world.
Proof. intros w. simpl. reflexivity. Qed.

Lemma keeps_bind {A B} (m : M A) (k : A -> M B) :
  keeps R m -> (forall a, keeps R (k a)) -> keeps R (bind m k).
Proof.
  intros Hm Hk w. specialize (Hm w). unfold bind.
  destruct (m w) as [[a|e] w1]; simpl in *; [|exact Hm].
  etransitivity; [exact Hm|apply Hk].
Qed.

Lemma keeps_try_except {A} (m : M A) (h : exn -> option (M A)) :
  keeps R m -> (forall e k, h e = Some k -> keeps R k) -> keeps R (try_except m h).
Proof.
  intros Hm Hh w. specialize (Hm w). unfold try_except.
  destruct (m w) as [[a|e] w1]; simpl in *; [exact Hm|].
  destruct (h e) as [k|] eqn:Hk; simpl; [|exact Hm].
  etransitivity; [exact Hm|by apply (Hh e k)].
Qed.

Lemma keeps_emit_run (e : Event) (w : World) :
  keeps R (emit e) -> R w (and_then w [e]).
Proof. intros H. specialize (H w). by rewrite emit_and_then in H. Qed.
End Keeps.

Lemma keeps_weaken {A} (R R' : relation World) (m : M A) :
  (forall w w', R w w' -> R' w w') -> keeps R m -> keeps R' m.
Proof. intros HR Hm w. apply HR, Hm. Qed.

#[global] Instance same_preorder {B} (field : World -> B) : PreOrder (same field).
Proof.
  split; [intros ?; reflexivity|]. unfold same. intros ? ? ? H1 H2. congruence.
Qed.

#[global] Instance keeps_invariant_preorder (P : World -> Prop) :
  PreOrder (keeps_invariant P).
Proof.
  split; [intros ? ?; assumption|]. unfold keeps_invariant. intros ? ? ? H1 H2 ?. auto.
Qed.

#[global] Instance no_edit_preorder : PreOrder no_edit.
Proof.
  split.
  - intros w. exists []. by rewrite app_nil_r.
  - intros w1 w2 w3 (e1 & H1 & F1) (e2 & H2 & F2). exists (e1 ++ e2)%list.
    split; [by rewrite H2, H1, app_assoc|by apply Forall_app].
Qed.

Lemma keeps_same {A B} (field : World -> B) (m : M A) :
  (forall w, field (m w).2 = field w) -> keeps (same field) m.
Proof. intros H w. apply H. Qed.

Lemma emit_no_edit (e : Event) : is_edit e = false -> keeps no_edit (emit e).
Proof.
  intros He w. rewrite emit_and_then. exists [e]. split; [reflexivity|]. by constructor.
Qed.

Lemma silent_no_edit {A} (m : M A) :
  (forall w, trace (m w).2 = trace w) -> keeps no_edit m.
Proof. intros H w. exists []. rewrite H, app_nil_r. by split. Qed.

Lemma same_pending_below_quorum (env : Env) (w w' : World) :
  same pending w w' -> keeps_invariant (below_quorum env) w w'.
Proof.
  unfold same, below_quorum. intros Hsame Hbelow key r approve. rewrite Hsame. apply Hbelow.
Qed.

Lemma same_published_tallies_ok (w w' : World) :
  same published w w' -> keeps_invariant tallies_ok w w'.
Proof. unfold same, tallies_ok. intros Hsame Hok key tally. rewrite Hsame. apply Hok. Qed.

Lemma bind_run {A B} (m : M A) (k : A -> M B) (w : World) :
  bind m k w =
  match m w with
  | (Ok a, w') => k a w'
  | (Raise e, w') => (Raise e, w')
  end.
Proof. reflexivity. Qed.

Lemma try_except_run {A} (m : M A) (h : exn -> option (M A)) (w : World) :
  try_except m h w =
  match m w with
  | (Ok a, w') => (Ok a, w')
  | (Raise e, w') =>
      match h e with
      | Some k => k w'
      | None => (Raise e, w')
      end
  end.
Proof. reflexivity. Qed.

(** The handlers and what they call, down to the primitives of the monad. *)
Ltac unfold_handlers :=
  unfold call2, call1, confirm_callback, settings_callback, approve_yes_callback,
    approve_no_callback, vote_callback, vote_reply, report_spot_callback,
    avg_callback, max_callback, tot_callback, close_callback,
    send_post_to, notify_user, send_message, show_admins_votes, delete_post,
    set_admin_vote, set_user_vote, from_group, from_channel, tally_of,
    get_post_report, become_anonym, become_credited, keyboard_of, reaction_of,
    answerCallbackQuery, forward_message, item, InvalidCategory.

(** Descends through the binds, the handlers of exceptions and the
    branches of a call; [leaf] closes the primitives. *)
Ltac keeps_with leaf :=
  repeat (cbv beta; match goal with
  | |- keeps _ (bind _ _) => apply keeps_bind; [apply _| |intros ?]
  | |- keeps _ (ret _) => apply keeps_ret, _
  | |- keeps _ (raise _) => apply keeps_raise, _
  | |- keeps _ get_world => apply keeps_get_world, _
  | |- keeps _ (try_except _ _) =>
      apply keeps_try_except;
      [apply _| |let e := fresh "e" in let k := fresh "k" in let H := fresh "H" in
        intros e k H; destruct e; repeat case_match; simplify_eq]
  | |- keeps _ (if ?b then _ else _) => destruct b
  | |- keeps _ (match ?x with _ => _ end) => destruct x
  | |- keeps _ _ => progress leaf
  end).

Ltac same_leaf :=
  apply keeps_same; intros ?; rewrite ?emit_and_then; reflexivity.

Ltac no_edit_leaf :=
  first [ apply emit_no_edit; reflexivity
        | apply silent_no_edit; intros ?; reflexivity ].

Ltac same_world :=
  unfold and_then; simpl; rewrite <- ?app_assoc; reflexivity.

(** ** The routers *)

Lemma globals_member (name : string) (entry : string * Global) :
  List.find (fun entry => String.eqb entry.1 name) callbacks = Some entry ->
  (name, entry.2) ∈ callbacks.
Proof.
  intros Hfind. apply find_some in Hfind as [Hin Heq].
  apply String.eqb_eq in Heq. subst name. destruct entry. by apply list_elem_of_In.
Qed.

(** A membership in [callbacks] that contradicts what is known of the name. *)
Ltac other_global H :=
  exfalso;
  repeat (apply elem_of_cons in H as [H|H]; [simplify_eq|]);
  by apply elem_of_nil in H.

(** What [meme_callback] keeps: a relation that the logger and the edits
    keep and that every handler the token can name keeps. *)
Lemma meme_callback_keeps (R : relation World) `{!PreOrder R} (env : Env)
    (info : CallbackInfo) (w : World) :
  (forall e, keeps R (emit e)) ->
  (forall command rest f info' arg,
     decode (data info) = command :: rest ->
     (drop_prefix 5 command ++ "_callback", f) ∈ callbacks ->
     keeps R (call2 env f info' arg)) ->
  R w (meme_callback env info w).2.
Proof.
  intros Hemit Hcall. unfold meme_callback. rewrite meme_callback_decoded.
  destruct (decode (data info)) as [|data0 [|data1 rest]] eqn:Hdecode; run.
  - reflexivity.
  - rewrite globals_find. destruct (List.find _ callbacks) as [entry|]; run; [reflexivity|].
    apply (keeps_emit_run R), Hemit.
  - rewrite globals_find. destruct (List.find _ callbacks) as [entry|] eqn:Hfind; run.
    + pose proof (Hcall data0 (data1 :: rest) entry.2
                    (with_data info (old_reactions (data info))) data1 eq_refl
                    (globals_member _ _ Hfind) w) as Hkept.
      destruct (call2 _ _ _ _ w) as [[[[text markup] out]|e] w1].
      * simpl in Hkept.
        destruct text as [[|c text]|], markup as [markup|]; run; try exact Hkept.
        all: etransitivity; [exact Hkept|]; apply (keeps_emit_run R), Hemit.
      * simpl in Hkept. destruct e; run; try exact Hkept.
        etransitivity; [exact Hkept|]. apply (keeps_emit_run R), Hemit.
    + apply (keeps_emit_run R), Hemit.
Qed.

Lemma globals_no_edit (name : string) : keeps no_edit (globals name).
Proof. unfold globals. keeps_with no_edit_leaf. Qed.

(** No handler edits a message: the edits are the router's. *)
Lemma call2_no_edit (env : Env) (f : Global) (info : CallbackInfo) (arg : string) :
  keeps no_edit (call2 env f info arg).
Proof. destruct f; unfold_handlers; keeps_with no_edit_leaf. Qed.

Lemma meme_dispatch_no_edit (env : Env) (info : CallbackInfo) (pieces : list string) :
  keeps no_edit
    (try_except
      (data0 <- item pieces 0 ;;
       f <- globals (drop_prefix 5 data0 ++ "_callback") ;;
       data1 <- item pieces 1 ;;
       call2 env f info data1)
      (fun e =>
         match e with
         | KeyError _ =>
             Some (emit (LogError "meme_callback" e) ;;; ret (None, None, None))
         | _ => None
         end)).
Proof.
  keeps_with ltac:(first [ apply globals_no_edit | apply call2_no_edit | no_edit_leaf
                         | progress unfold item ]).
Qed.

(** X1: whatever the token, [meme_callback] edits at most one message,
    the one that carries the keyboard, and the edit is the last thing it
    does: everything issued before it (answers, notifications, log lines,
    posts) is no edit.  When the call raises, nothing was edited. *)
Theorem meme_callback_edits_once (env : Env) (info : CallbackInfo) (w : World) :
  exists before last,
    trace (meme_callback env info w).2 = (trace w ++ before ++ last)%list /\
    Forall (fun e => is_edit e = false) before /\
    (last = [] \/
     exists e out,
       last = [e] /\ is_edit e = true /\
       edit_target e = Some (chat_id info, message_id info) /\
       (meme_callback env info w).1 = Ok out).
Proof.
  unfold meme_callback. rewrite bind_run.
  match goal with |- context [try_except ?m ?h w] =>
    pose proof (meme_dispatch_no_edit env
      (with_data info (old_reactions (data info)))
      (split_comma (data (with_data info (old_reactions (data info))))) w) as Hkeeps;
    destruct (try_except m h w) as [[[[text markup] out]|e] w1]
  end; simpl in Hkeeps; destruct Hkeeps as (before & Htrace & Hbefore).
  - destruct text as [[|c text]|], markup as [markup|]; run;
      exists before; rewrite ?Htrace.
    all: try (exists []; rewrite !app_nil_r; split; [reflexivity|split; [assumption|by left]]).
    all: eexists [_]; rewrite <- ?app_assoc; split; [reflexivity|split; [assumption|right]];
      eexists _, _; repeat split; reflexivity.
  - exists before, []. rewrite app_nil_r. simpl. split; [assumption|split; [assumption|by left]].
Qed.

(** The statistics handlers only read. *)
Lemma call1_same_world (env : Env) (f : Global) (arg : string) :
  keeps (same id) (call1 env f arg).
Proof. destruct f; unfold_handlers; keeps_with fail. Qed.

(** X2: whatever the token, [stats_callback] first answers the callback
    query and never writes to the store.  After the answer it does one of
    four things: it raises (an exception that is no [KeyError]) having
    done nothing else, or it returns after one log line for a [KeyError],
    or after one edit of the text of the menu with the statistics
    keyboard, or after one edit that removes the keyboard. *)
Theorem stats_callback_shape (env : Env) (info : CallbackInfo) (w : World) :
  exists events,
    (stats_callback env info w).2 =
    and_then w (AnswerCallbackQuery (query_id info) None :: events) /\
    ((events = [] /\
      exists e, (stats_callback env info w).1 = Raise e /\ forall k, e <> KeyError k) \/
     ((stats_callback env info w).1 = Ok tt /\
      ((exists k, events = [LogError "stats_callback" (KeyError k)]) \/
       (exists c text,
          events = [EditMessageText (chat_id info) (message_id info) (String c text)
                      (Some (get_stats_kb env))]) \/
       events = [EditMessageReplyMarkup (chat_id info) (message_id info) None]))).
Proof.
  unfold stats_callback. run.
  destruct (split_comma (data info)) as [|data0 [|data1 rest]]; run.
  - exists []. split; [same_world|left]. split; [reflexivity|]. by eexists.
  - rewrite globals_find. destruct (List.find _ callbacks) as [entry|]; run.
    + exists []. split; [same_world|left]. split; [reflexivity|]. by eexists.
    + eexists [_]. split; [same_world|right]. split; [reflexivity|left]. by eexists.
  - rewrite globals_find. destruct (List.find _ callbacks) as [entry|]; run.
    + pose proof (call1_same_world env entry.2 data1
        (and_then w [AnswerCallbackQuery (query_id info) None])) as Hsame.
      destruct (call1 env entry.2 data1 _) as [[[[|c text]|]|e] w1] eqn:Hcall;
        simpl in Hsame; unfold same, id in Hsame; subst w1; run.
      * eexists [_]. split; [same_world|right]. split; [reflexivity|]. right. by right.
      * eexists [_]. split; [same_world|right]. split; [reflexivity|]. right. left.
        by eexists _, _.
      * eexists [_]. split; [same_world|right]. split; [reflexivity|]. right. by right.
      * destruct e; run.
        1: eexists [_]; split; [same_world|right]; split; [reflexivity|left]; by eexists.
        all: exists []; split; [same_world|left]; split; [reflexivity|]; by eexists.
    + eexists [_]. split; [same_world|right]. split; [reflexivity|left]. by eexists.
Qed.

(** X3: no [KeyError] leaves a router, whatever the token and the store:
    the ones raised by the lookup of the function, by a handler or by
    [REACTION[arg]] are caught and logged, and nothing after the [try]
    raises one. *)
Theorem routers_catch_key_errors (env : Env) (info : CallbackInfo) (w : World)
    (k : string) :
  (meme_callback env info w).1 <> Raise (KeyError k) /\
  (stats_callback env info w).1 <> Raise (KeyError k).
Proof.
  split.
  - unfold meme_callback. rewrite bind_run, try_except_run.
    match goal with |- context [bind ?m ?f w] =>
      destruct (bind m f w) as [[[[text markup] out]|e] w1]
    end.
    + by destruct text as [[|c text]|], markup as [markup|]; run.
    + by destruct e; run.
  - unfold stats_callback, answerCallbackQuery.
    rewrite bind_run, emit_and_then, bind_run, try_except_run.
    match goal with |- context [bind ?m ?f ?w0] =>
      destruct (bind m f w0) as [[text|e] w1]
    end.
    + by destruct text as [[[|c text]|]|]; run.
    + by destruct e; run.
Qed.

(** X4: the part of the store that a callback may write is decided by the
    function that the command names.  No callback writes a report; only
    [settings_callback] writes the credited users, only
    [report_spot_callback] writes [user_data], only [approve_yes_callback]
    writes [bot_data] (and only when comments are enabled), only
    [approve_yes_callback] and [vote_callback] write the published posts,
    and only [confirm_callback] and the two approval handlers write the
    pending posts. *)
Theorem meme_callback_frame (env : Env) (info : CallbackInfo) (w : World)
    (command : string) (rest : list string) :
  decode (data info) = command :: rest ->
  let name := drop_prefix 5 command ++ "_callback" in
  let w' := (meme_callback env info w).2 in
  reports w' = reports w /\
  (name <> "settings_callback" -> credited w' = credited w) /\
  (name <> "report_spot_callback" -> user_data w' = user_data w) /\
  (name <> "approve_yes_callback" \/ comments env = false -> bot_data w' = bot_data w) /\
  (name <> "approve_yes_callback" -> name <> "vote_callback" ->
   published w' = published w) /\
  (name <> "confirm_callback" -> name <> "approve_yes_callback" ->
   name <> "approve_no_callback" -> pending w' = pending w).
Proof.
  intros Hdecode name w'. subst w'.
  repeat split.
  - apply (meme_callback_keeps (same reports)); [intros; same_leaf|].
    intros ? ? f ? ? _ _. destruct f; unfold_handlers; keeps_with same_leaf.
  - intros Hname.
    apply (meme_callback_keeps (same credited)); [intros; same_leaf|].
    intros ? ? f ? ? Hd Hin. rewrite Hdecode in Hd. injection Hd as <- <-. fold name in Hin.
    destruct f; try (by other_global Hin); unfold_handlers; keeps_with same_leaf.
  - intros Hname.
    apply (meme_callback_keeps (same user_data)); [intros; same_leaf|].
    intros ? ? f ? ? Hd Hin. rewrite Hdecode in Hd. injection Hd as <- <-. fold name in Hin.
    destruct f; try (by other_global Hin); unfold_handlers; keeps_with same_leaf.
  - intros Hname.
    apply (meme_callback_keeps (same bot_data)); [intros; same_leaf|].
    intros ? ? f ? ? Hd Hin. rewrite Hdecode in Hd. injection Hd as <- <-. fold name in Hin.
    destruct Hname as [Hname|Hcomments].
    + destruct f; try (by other_global Hin); unfold_handlers; keeps_with same_leaf.
    + destruct f; unfold_handlers; rewrite ?Hcomments; keeps_with same_leaf.
  - intros Hyes Hvote.
    apply (meme_callback_keeps (same published)); [intros; same_leaf|].
    intros ? ? f ? ? Hd Hin. rewrite Hdecode in Hd. injection Hd as <- <-. fold name in Hin.
    destruct f; try (by other_global Hin); unfold_handlers; keeps_with same_leaf.
  - intros Hconfirm Hyes Hno.
    apply (meme_callback_keeps (same pending)); [intros; same_leaf|].
    intros ? ? f ? ? Hd Hin. rewrite Hdecode in Hd. injection Hd as <- <-. fold name in Hin.
    destruct f; try (by other_global Hin); unfold_handlers; keeps_with same_leaf.
Qed.

Lemma meme_callback_frame_witness :
  pending (meme_callback ex_env (ex_info "meme_vote,1" (-1001) 9 3)
             (ex_world [] (Some []))).2
  = pending (ex_world [] (Some [])) /\
  credited (meme_callback ex_env (ex_info "meme_vote,1" (-1001) 9 3)
              (ex_world [] (Some []))).2
  = credited (ex_world [] (Some [])).
Proof.
  pose proof (meme_callback_frame ex_env (ex_info "meme_vote,1" (-1001) 9 3)
                (ex_world [] (Some [])) "meme_vote" ["1"] eq_refl) as H.
  cbv zeta in H. destruct H as (_ & Hcredited & _ & _ & _ & Hpending).
  split; [apply Hpending|apply Hcredited]; by vm_compute.
Defined.

(** X5: the router looks at the command after its first five characters,
    at the first argument, and at nothing else of the token: two tokens
    that agree on these are handled alike, whatever the prefix and whatever
    follows a second comma.  The approval and report handlers do not look
    at the argument either, and [stats_callback] (six characters) passes
    [close_callback] an argument that it ignores. *)
Theorem extra_pieces_ignored (env : Env) (info : CallbackInfo) (t1 t2 : string)
    (command1 command2 arg1 arg2 : string) (rest1 rest2 : list string) (w : World) :
  (decode t1 = command1 :: arg1 :: rest1 ->
   decode t2 = command2 :: arg2 :: rest2 ->
   drop_prefix 5 command1 = drop_prefix 5 command2 ->
   arg1 = arg2 \/
   drop_prefix 5 command1 ∈ ["approve_yes"; "approve_no"; "report_spot"] ->
   meme_callback env (with_data info t1) w = meme_callback env (with_data info t2) w) /\
  (split_comma t1 = command1 :: arg1 :: rest1 ->
   split_comma t2 = command2 :: arg2 :: rest2 ->
   drop_prefix 6 command1 = drop_prefix 6 command2 ->
   arg1 = arg2 \/ drop_prefix 6 command1 = "close" ->
   stats_callback env (with_data info t1) w = stats_callback env (with_data info t2) w).
Proof.
  split.
  - intros H1 H2 Hcommand Hargs.
    unfold meme_callback. rewrite !meme_callback_decoded. cbn [data with_data].
    rewrite H1, H2. run. rewrite <- Hcommand.
    rewrite !globals_find. destruct (List.find _ callbacks) as [entry|] eqn:Hfind; run;
      [|reflexivity].
    assert (call2 env entry.2 (with_data (with_data info t1) (old_reactions t1)) arg1 =
            call2 env entry.2 (with_data (with_data info t2) (old_reactions t2)) arg2) as ->;
      [|reflexivity].
    destruct Hargs as [-> | Hhandler].
    + destruct entry as [name []]; reflexivity.
    + repeat (apply elem_of_cons in Hhandler as [Hhandler | Hhandler]);
        [..|by apply elem_of_nil in Hhandler];
        rewrite Hhandler in Hfind; vm_compute in Hfind;
        injection Hfind as Hentry; rewrite <- Hentry; reflexivity.
  - intros H1 H2 Hcommand Hargs.
    unfold stats_callback. cbn [data with_data]. rewrite H1, H2. run. rewrite <- Hcommand.
    rewrite !globals_find. destruct (List.find _ callbacks) as [entry|] eqn:Hfind; run;
      [|reflexivity].
    destruct Hargs as [-> | Hclose]; [reflexivity|].
    rewrite Hclose in Hfind. vm_compute in Hfind.
    injection Hfind as Hentry. rewrite <- Hentry. reflexivity.
Qed.

Lemma extra_pieces_ignored_witness :
  meme_callback ex_env (with_data (ex_info "" (-2002) 7 1) "meme_approve_yes,")
    (ex_world [] None)
  = meme_callback ex_env (with_data (ex_info "" (-2002) 7 1) "1234_approve_yes,now,then")
      (ex_world [] None).
Proof.
  apply (proj1 (extra_pieces_ignored ex_env (ex_info "" (-2002) 7 1)
                  "meme_approve_yes," "1234_approve_yes,now,then"
                  "meme_approve_yes" "1234_approve_yes" "" "now" [] ["then"]
                  (ex_world [] None))); [reflexivity|reflexivity|reflexivity|].
  right. apply list_elem_of_here.
Defined.

(** ** Invariants of the store *)

Lemma one_row_each_nil {V : Type} : one_row_each (V := V) [].
Proof. intros k. simpl. lia. Qed.

Lemma confirm_callback_below_quorum (env : Env) (info : CallbackInfo) (arg : string) :
  1 <= n_votes env ->
  keeps (keeps_invariant (below_quorum env)) (confirm_callback env info arg).
Proof.
  intros Hquorum. unfold confirm_callback, send_post_to.
  keeps_with ltac:(first
    [ apply (keeps_weaken _ _ _ (same_pending_below_quorum env)); same_leaf
    | idtac ]).
  intros w Hbelow key r approve. simpl. rewrite lookup_insert.
  case_decide; [|apply Hbelow]. intros [= <-]. unfold count_votes. simpl. lia.
Qed.

(** X6: with a quorum of at least one, and when [send_message] raises
    nothing but the two errors that the handlers catch, every callback
    keeps the invariant of the pending posts, whatever the token: if every
    pending post has fewer approvals and fewer rejections than the quorum
    before [meme_callback] runs, so it is after, whether the call returns
    or raises.  A submission enters without votes, a vote that reaches the
    quorum removes the post, and the other handlers do not write the
    pending posts. *)
Theorem meme_callback_keeps_below_quorum (env : Env) (info : CallbackInfo) (w : World) :
  1 <= n_votes env ->
  (forall chat, uncaught env chat = None) ->
  below_quorum env w -> below_quorum env (meme_callback env info w).2.
Proof.
  intros Hquorum Hnotify.
  apply (meme_callback_keeps (keeps_invariant (below_quorum env))).
  - intros e. apply (keeps_weaken _ _ _ (same_pending_below_quorum env)). same_leaf.
  - intros _ _ f info' arg _ _.
    destruct f;
      try (apply (keeps_weaken _ _ _ (same_pending_below_quorum env));
           unfold_handlers; keeps_with same_leaf; fail).
    + by apply confirm_callback_below_quorum.
    + intros w0 Hbelow.
      exact (admin_handlers_keep_below_quorum env info' arg w0 true Hnotify Hbelow).
    + intros w0 Hbelow.
      exact (admin_handlers_keep_below_quorum env info' arg w0 false Hnotify Hbelow).
Qed.

Lemma meme_callback_keeps_below_quorum_witness :
  below_quorum ex_env
    (meme_callback ex_env (ex_info "meme_approve_yes," (-2002) 7 2)
       (ex_world [(1, true)] None)).2.
Proof.
  apply meme_callback_keeps_below_quorum; [simpl; lia|reflexivity|].
  intros key r approve Hpost. cbn [pending ex_world] in Hpost.
  apply lookup_singleton_Some in Hpost as [_ <-].
  destruct approve; unfold count_votes; simpl; lia.
Defined.

(** The condition on [send_message] is needed: when the notification of
    the submitter times out, the approval that reaches the quorum leaves
    the pending post in the store with its two approvals. *)
Example below_quorum_needs_notification :
  let w := ex_world [(1, true)] None in
  let w' := (meme_callback ex_env_timeout (ex_info "meme_approve_yes," (-2002) 7 2) w).2 in
  below_quorum ex_env_timeout w /\
  pending w' !! (-2002, 7)
  = Some {| submitter := 50; admin_votes := [(1, true); (2, true)] |} /\
  ~ below_quorum ex_env_timeout w'.
Proof.
  intros w w'. split; [|split].
  - intros key r approve Hpost. cbn [pending ex_world w] in Hpost.
    apply lookup_singleton_Some in Hpost as [_ <-].
    destruct approve; unfold count_votes; simpl; lia.
  - reflexivity.
  - intros Hbelow.
    specialize (Hbelow (-2002, 7) {| submitter := 50; admin_votes := [(1, true); (2, true)] |}
                  true eq_refl).
    unfold count_votes in Hbelow. simpl in Hbelow. lia.
Qed.

(** X7: every callback keeps the invariant of the reactions, whatever the
    token: if every voter has at most one reaction on every published post
    before [meme_callback] runs, so it is after.  A post is published
    without reactions, [vote_callback] writes through [set_user_vote], and
    the other handlers do not write the published posts. *)
Theorem meme_callback_keeps_tallies_ok (env : Env) (info : CallbackInfo) (w : World) :
  tallies_ok w -> tallies_ok (meme_callback env info w).2.
Proof.
  apply (meme_callback_keeps (keeps_invariant tallies_ok)).
  - intros e. apply (keeps_weaken _ _ _ same_published_tallies_ok). same_leaf.
  - intros _ _ f info' arg _ _.
    destruct f;
      try (apply (keeps_weaken _ _ _ same_published_tallies_ok);
           unfold_handlers; keeps_with same_leaf; fail).
    + unfold call2, approve_yes_callback, send_post_to.
      keeps_with ltac:(first
        [ apply (keeps_weaken _ _ _ same_published_tallies_ok);
          unfold_handlers; keeps_with same_leaf; fail
        | idtac ]).
      intros w0 Hok key tally. simpl. rewrite lookup_insert.
      case_decide; [|apply Hok]. intros [= <-]. apply one_row_each_nil.
    + unfold call2, vote_callback.
      keeps_with ltac:(first
        [ intros w0 Hok; by apply set_user_vote_tallies_ok
        | apply (keeps_weaken _ _ _ same_published_tallies_ok);
          unfold_handlers; keeps_with same_leaf; fail ]).
Qed.

Lemma meme_callback_keeps_tallies_ok_witness :
  tallies_ok
    (meme_callback ex_env (ex_info "meme_vote,1" (-1001) 9 3)
       (ex_world [] (Some [(3, "0")]))).2.
Proof.
  apply meme_callback_keeps_tallies_ok.
  intros key tally Hpost. cbn [published ex_world] in Hpost.
  apply lookup_singleton_Some in Hpost as [_ <-].
  intros k. unfold rows_of. simpl. destruct (bool_decide (3 = k)); simpl; lia.
Defined.

(** ** The menus *)



(** X9: [confirm_callback], through the router.  The call ends the
    conversation when the argument is not [yes] or the menu replies to a
    message.  With [no] the only effect is one edit of the menu; any other
    argument than [yes] is logged and nothing else happens; with [yes] the
    menu is edited once, to a text without keyboard, after the post was
    sent to the admins, and the pending post is stored only when the kind
    of post is accepted. *)
Theorem confirm_callback_ends_conversation (env : Env) (info : CallbackInfo) (w : World)
    (arg : string) (rest : list string) :
  decode (data info) = "meme_confirm" :: arg :: rest ->
  let w' := (meme_callback env info w).2 in
  (arg <> "yes" \/ reply_to_message info <> None ->
   (meme_callback env info w).1 = Ok (Some STATE_end)) /\
  (arg = "no" ->
   w' = and_then w [EditMessageText (chat_id info) (message_id info)
                      "Va bene, alla prossima 🙃" None]) /\
  (arg <> "yes" -> arg <> "no" ->
   w' = and_then w [LogErrorArg "confirm_callback" arg]) /\
  (forall m, arg = "yes" -> reply_to_message info = Some m ->
   exists c text,
     trace w' =
     (trace w ++
      (if msg_allowed m then [SendPostToAdmin (cfg_group_id env) (next_message_id w)]
       else [])
      ++ [EditMessageText (chat_id info) (message_id info) (String c text) None])%list /\
     pending w' =
     (if msg_allowed m
      then <[(cfg_group_id env, next_message_id w) :=
               {| submitter := msg_from m; admin_votes := [] |}]> (pending w)
      else pending w)).
Proof.
  intros Hdecode w'. subst w'.
  rewrite (meme_callback_dispatch env info w _ _ _ ("confirm_callback", G_confirm_callback)
             Hdecode eq_refl).
  cbn [snd call2]. unfold confirm_callback, send_post_to.
  cbn [reply_to_message with_data].
  destruct (String.eqb arg "yes") eqn:Hyes.
  { apply String.eqb_eq in Hyes. subst arg.
    destruct (reply_to_message info) as [m|]; [destruct (msg_allowed m) eqn:Hallowed|];
      run; cbn [String.append]; run.
    all: repeat split; try done; try (by intros [?|?]).
    all: intros m' _ [= <-]; rewrite Hallowed; eexists _, _;
      split; reflexivity || (rewrite <- ?app_assoc; reflexivity). }
  apply String.eqb_neq in Hyes.
  destruct (String.eqb arg "no") eqn:Hno.
  { apply String.eqb_eq in Hno. subst arg. run. repeat split; done. }
  apply String.eqb_neq in Hno. run. repeat split; done.
Qed.

Lemma confirm_callback_ends_conversation_witness :
  meme_callback ex_env (ex_info "meme_confirm,no" 42 7 42) ex_empty_world
  = (Ok (Some STATE_end),
     and_then ex_empty_world [EditMessageText 42 7 "Va bene, alla prossima 🙃" None]).
Proof.
  pose proof (confirm_callback_ends_conversation ex_env (ex_info "meme_confirm,no" 42 7 42)
                ex_empty_world "no" [] eq_refl) as H.
  cbv zeta in H. destruct H as (Hends & Hno & _).
  apply injective_projections; simpl.
  - apply Hends. left. discriminate.
  - by apply Hno.
Defined.



(** ** Reports and reactions *)

(** X11: [report_spot_callback] guards neither the message it reads nor
    the message it sends.  On a menu that replies to no message the
    subscript of [None] raises [TypeError] before anything is done.  When
    the reporter has not reported the post yet and cannot be reached, the
    error of Telegram leaves the handler and the router (which catches
    [KeyError] only): the post under report is not noted in [user_data],
    the store is as before and no message is edited. *)
Theorem report_spot_callback_raises (env : Env) (info : CallbackInfo) (w : World)
    (arg : string) (rest : list string) :
  decode (data info) = "meme_report_spot" :: arg :: rest ->
  (reply_to_message info = None ->
   meme_callback env info w = (Raise TypeError, w)) /\
  (forall m e,
     reply_to_message info = Some m ->
     (sender_id info, cfg_channel_id env, msg_id m) ∉ reports w ->
     deliver env (sender_id info) = Some e ->
     (meme_callback env info w).1 = Raise (TelegramErr e) /\
     same_store w (meme_callback env info w).2 /\
     count_events is_edit (trace (meme_callback env info w).2) =
     count_events is_edit (trace w)).
Proof.
  intros Hdecode.
  rewrite (meme_callback_dispatch env info w _ _ _
             ("report_spot_callback", G_report_spot_callback) Hdecode eq_refl).
  cbn [snd call2]. unfold report_spot_callback, get_post_report, send_message.
  cbn [reply_to_message sender_id query_id chat_id with_data].
  split.
  - intros ->. run. reflexivity.
  - intros m e -> Hnew Hblocked. rewrite Hblocked. run.
    rewrite (bool_decide_false _ Hnew). run.
    split; [reflexivity|]. split; [by repeat split|].
    rewrite !count_events_app. unfold count_events. simpl. lia.
Qed.

Lemma report_spot_callback_raises_witness :
  (meme_callback ex_env_blocked (ex_info "meme_report_spot," (-1001) 11 50)
     ex_empty_world).1
  = Raise (TelegramErr Unauthorized) /\
  user_data (meme_callback ex_env_blocked (ex_info "meme_report_spot," (-1001) 11 50)
               ex_empty_world).2
  = ∅.
Proof.
  destruct (proj2 (report_spot_callback_raises ex_env_blocked
                     (ex_info "meme_report_spot," (-1001) 11 50) ex_empty_world "" []
                     eq_refl)
              {| msg_id := 9; msg_from := 0; msg_allowed := true |} Unauthorized
              eq_refl ltac:(simpl; apply not_elem_of_empty) eq_refl)
    as (Hraises & (_ & _ & _ & _ & _ & Huser & _) & _).
  split; [exact Hraises|]. symmetry. exact Huser.
Defined.

(** X12: [vote_callback] on a post of the store, with a category of
    [REACTION], through the router: the vote is written first, then the
    callback query is answered with the symbol of the category (put or
    taken away, as [set_user_vote] reported), and the router edits the
    keyboard of the message once, to the one rendered from the reactions as
    they are after the vote.  No conversation state is returned. *)
Theorem vote_callback_success (env : Env) (info : CallbackInfo) (w : World)
    (category : string) (rest : list string) (tally : list (Z * string))
    (reaction : string) (markup : Markup) :
  decode (data info) = "meme_vote" :: category :: rest ->
  published w !! (chat_id info, message_id info) = Some tally ->
  REACTION env !! category = Some reaction ->
  reply_markup info = Some markup ->
  let post := {| channel_id := chat_id info; c_message_id := message_id info |} in
  let voted := cast_user_vote tally (sender_id info) category in
  meme_callback env info w =
  (Ok None,
   and_then (store_tally w (chat_id info, message_id info) voted.1)
     [AnswerCallbackQuery (query_id info)
        (Some ((if voted.2 then "Hai messo un " else "Hai tolto il ") ++ reaction));
      EditMessageReplyMarkup (chat_id info) (message_id info)
        (Some (update_vote_kb env (inline_keyboard markup) post voted.1))]).
Proof.
  intros Hdecode Hpost Hreaction Hmarkup post voted.
  rewrite (meme_callback_dispatch env info w _ _ _ ("vote_callback", G_vote_callback)
             Hdecode eq_refl).
  cbn [snd call2].
  unfold vote_callback, vote_reply, from_channel, tally_of, keyboard_of, reaction_of.
  cbn [chat_id message_id sender_id query_id reply_markup with_data].
  rewrite Hmarkup, Hreaction. rewrite !bind_run. unfold get_world at 1. cbn beta iota.
  unfold ret at 1. rewrite Hpost. rewrite bind_run, set_user_vote_run.
  unfold published_key. cbn [channel_id c_message_id]. rewrite Hpost, Hreaction.
  fold voted. destruct voted as [tally' was_added]. cbn [fst snd].
  destruct was_added; run; rewrite lookup_insert_eq; simpl;
    unfold and_then, store_tally; simpl; rewrite <- ?app_assoc; reflexivity.
Qed.

Lemma vote_callback_success_witness :
  meme_callback ex_env (ex_info "meme_vote,1" (-1001) 9 3) (ex_world [] (Some [(3, "1")]))
  = (Ok None,
     and_then (store_tally (ex_world [] (Some [(3, "1")])) (-1001, 9) [])
       [AnswerCallbackQuery 1 (Some ("Hai tolto il " ++ "👍"));
        EditMessageReplyMarkup (-1001) 9 (Some (InlineKeyboardMarkup []))]).
Proof.
  exact (vote_callback_success ex_env (ex_info "meme_vote,1" (-1001) 9 3)
           (ex_world [] (Some [(3, "1")])) "1" [] [(3, "1")] "👍" (InlineKeyboardMarkup [])
           eq_refl eq_refl eq_refl eq_refl).
Defined.

(** X13: an approval that reaches the quorum, through the router.  The
    callback query is answered and the post is sent to the channel; with
    comments enabled the submitter is noted in [bot_data] under the
    identity of the new channel post, and otherwise [bot_data] stays as it
    was.  Then the submitter is notified.  When the notification is
    delivered or fails with an error that the handler catches (which is
    logged), the admins are shown who approved and the pending post is
    deleted; the router edits nothing and returns no state.  When
    [send_message] raises another error, the error leaves the handler and
    the router there: the post is in the channel, the pending post is still
    in the store with the vote, and nothing is shown or deleted. *)
Theorem approval_at_quorum (env : Env) (info : CallbackInfo) (w : World)
    (arg : string) (rest : list string) (r : PendingRecord)
    (votes' : list (Z * bool)) (count : nat) :
  decode (data info) = "meme_approve_yes" :: arg :: rest ->
  pending w !! (chat_id info, message_id info) = Some r ->
  cast_admin_vote (admin_votes r) (sender_id info) true = (votes', count, false) ->
  n_votes env <= Z.of_nat count ->
  let w' := (meme_callback env info w).2 in
  let key := (chat_id info, message_id info) in
  let new_post := (cfg_channel_id env, next_message_id w) in
  published w' = <[new_post := []]> (published w) /\
  bot_data w' =
  (if comments env then <[new_post := submitter r]> (bot_data w) else bot_data w) /\
  match uncaught env (submitter r) with
  | None =>
      (meme_callback env info w).1 = Ok None /\
      trace w' =
      (trace w ++
       [AnswerCallbackQuery (query_id info) None;
        SendPostToChannel (cfg_channel_id env) (next_message_id w);
        notification env (submitter r)
          "Il tuo ultimo post è stato pubblicato su @Spotted_DMI"
          "Notifying the user on approve_yes";
        ShowAdminsVotes (chat_id info) (message_id info) true (voters_of votes' true);
        DeletePost (chat_id info) (message_id info)])%list /\
      pending w' = delete key (pending w)
  | Some e =>
      (meme_callback env info w).1 = Raise (TelegramErr e) /\
      trace w' =
      (trace w ++
       [AnswerCallbackQuery (query_id info) None;
        SendPostToChannel (cfg_channel_id env) (next_message_id w)])%list /\
      pending w' = <[key := {| submitter := submitter r; admin_votes := votes' |}]> (pending w)
  end.
Proof.
  intros Hdecode Hpost Hcast Hquorum w' key new_post. subst w' key new_post.
  rewrite (meme_callback_dispatch env info w _ _ _
             ("approve_yes_callback", G_approve_yes_callback) Hdecode eq_refl).
  cbn [snd call2].
  pose proof (approve_yes_callback_run env
                (with_data info (old_reactions (data info))) arg w r votes' count false
                Hpost Hcast) as Hrun.
  cbv zeta in Hrun. rewrite vote_result_changed in Hrun.
  apply Z.geb_le in Hquorum. rewrite Hquorum in Hrun.
  cbv zeta. rewrite Hrun.
  destruct (uncaught env (submitter r)) as [e|]; simpl.
  - repeat split.
  - repeat split. apply delete_insert_eq.
Qed.

Lemma approval_at_quorum_witness :
  ((meme_callback ex_env (ex_info "meme_approve_yes," (-2002) 7 2)
      (ex_world [(1, true)] None)).1 = Ok None /\
   bot_data (meme_callback ex_env (ex_info "meme_approve_yes," (-2002) 7 2)
               (ex_world [(1, true)] None)).2
   = <[(-1001, 1000) := 50]> ∅) /\
  ((meme_callback ex_env_timeout (ex_info "meme_approve_yes," (-2002) 7 2)
      (ex_world [(1, true)] None)).1 = Raise (TelegramErr TimedOut) /\
   trace (meme_callback ex_env_timeout (ex_info "meme_approve_yes," (-2002) 7 2)
            (ex_world [(1, true)] None)).2
   = [AnswerCallbackQuery 1 None; SendPostToChannel (-1001) 1000]).
Proof.
  split.
  - pose proof (approval_at_quorum ex_env (ex_info "meme_approve_yes," (-2002) 7 2)
                  (ex_world [(1, true)] None) "" []
                  {| submitter := 50; admin_votes := [(1, true)] |}
                  [(1, true); (2, true)] 2 eq_refl eq_refl eq_refl
                  ltac:(simpl; lia)) as H.
    cbv zeta in H. destruct H as (_ & Hcredit & Hreturns & _).
    split; [exact Hreturns|exact Hcredit].
  - pose proof (approval_at_quorum ex_env_timeout (ex_info "meme_approve_yes," (-2002) 7 2)
                  (ex_world [(1, true)] None) "" []
                  {| submitter := 50; admin_votes := [(1, true)] |}
                  [(1, true); (2, true)] 2 eq_refl eq_refl eq_refl
                  ltac:(simpl; lia)) as H.
    cbv zeta in H. destruct H as (_ & _ & Hraises & Htrace & _).
    split; [exact Hraises|exact Htrace].
Defined.

(** ** Tokens and their pieces *)

Lemma has_comma_cons (c : ascii) (s : string) :
  has_comma (String c s) = Ascii.eqb c ","%char || has_comma s.
Proof. reflexivity. Qed.

Lemma split_comma_String (c : ascii) (rest : string) :
  split_comma (String c rest) =
  if Ascii.eqb c ","%char then "" :: split_comma rest
  else match split_comma rest with
       | piece :: pieces => String c piece :: pieces
       | [] => [String c ""]
       end.
Proof. reflexivity. Qed.

Lemma append_String (c : ascii) (s t : string) : String c s ++ t = String c (s ++ t).
Proof. reflexivity. Qed.

Lemma append_empty (t : string) : "" ++ t = t.
Proof. reflexivity. Qed.

Lemma split_comma_pieces (s : string) :
  Forall (fun piece => has_comma piece = false) (split_comma s).
Proof.
  induction s as [|c rest IH]; [by constructor|].
  rewrite split_comma_String.
  destruct (Ascii.eqb c ",") eqn:Hc; [by constructor|].
  destruct (split_comma rest) as [|piece pieces];
    [constructor; [by rewrite has_comma_cons, Hc|constructor]|].
  inversion IH as [|? ? Hpiece Hpieces]; subst.
  constructor; [|assumption]. by rewrite has_comma_cons, Hc.
Qed.

Lemma join_comma_cons (piece : string) (pieces : list string) :
  pieces <> [] -> join_comma (piece :: pieces) = piece ++ "," ++ join_comma pieces.
Proof. by destruct pieces. Qed.

Lemma join_split_comma (s : string) : join_comma (split_comma s) = s.
Proof.
  induction s as [|c rest IH]; [reflexivity|].
  rewrite split_comma_String.
  destruct (Ascii.eqb c ",") eqn:Hc.
  - apply Ascii.eqb_eq in Hc. subst c.
    destruct (split_comma_cons rest) as (piece & pieces & Hsplit).
    rewrite join_comma_cons by (by rewrite Hsplit).
    by rewrite IH, append_empty, append_String, append_empty.
  - destruct (split_comma rest) as [|piece [|piece' pieces]].
    + by rewrite <- IH.
    + cbn [join_comma] in *. by rewrite IH.
    + rewrite join_comma_cons in * by done. by rewrite append_String, IH.
Qed.

Lemma split_comma_append (piece s : string) :
  has_comma piece = false -> split_comma (piece ++ "," ++ s) = piece :: split_comma s.
Proof.
  induction piece as [|c piece IH].
  - intros _. by rewrite append_empty, append_String, append_empty, split_comma_String.
  - rewrite has_comma_cons. intros [Hc Hpiece]%orb_false_elim.
    by rewrite append_String, split_comma_String, Hc, (IH Hpiece).
Qed.

Lemma split_join_comma (pieces : list string) :
  pieces <> [] -> Forall (fun piece => has_comma piece = false) pieces ->
  split_comma (join_comma pieces) = pieces.
Proof.
  induction pieces as [|piece pieces IH]; [done|].
  intros _ Hall. inversion Hall as [|? ? Hpiece Hrest]; subst.
  destruct pieces as [|piece' pieces]; [by apply split_comma_without|].
  rewrite join_comma_cons by done.
  by rewrite (split_comma_append _ _ Hpiece), IH.
Qed.

Lemma has_comma_append (piece s : string) : has_comma (piece ++ "," ++ s) = true.
Proof.
  induction piece as [|c piece IH].
  - by rewrite append_empty, append_String, has_comma_cons.
  - by rewrite append_String, has_comma_cons, IH, orb_true_r.
Qed.

Lemma old_reactions_comma (s : string) : has_comma s = true -> old_reactions s = s.
Proof.
  intros Hcomma. unfold old_reactions.
  destruct (String.eqb s "meme_vote_yes") eqn:Hyes;
    [apply String.eqb_eq in Hyes; by subst s|].
  destruct (String.eqb s "meme_vote_no") eqn:Hno;
    [apply String.eqb_eq in Hno; by subst s|].
  reflexivity.
Qed.

(** X14: cutting a token at its commas loses nothing and leaves no comma
    in a piece: the pieces joined by commas are the token again, and
    comma-free pieces joined by commas are cut into themselves.  The
    legacy adapter does not stand in the way: a token built as
    [command,arg,...] from comma-free pieces is decoded by [meme_callback]
    into exactly these pieces. *)
Theorem token_round_trip :
  (forall s, join_comma (split_comma s) = s /\
             Forall (fun piece => has_comma piece = false) (split_comma s)) /\
  (forall pieces,
     pieces <> [] -> Forall (fun piece => has_comma piece = false) pieces ->
     split_comma (join_comma pieces) = pieces) /\
  (forall command arg rest,
     Forall (fun piece => has_comma piece = false) (command :: arg :: rest) ->
     decode (join_comma (command :: arg :: rest)) = command :: arg :: rest).
Proof.
  split; [|split].
  - intros s. split; [apply join_split_comma|apply split_comma_pieces].
  - apply split_join_comma.
  - intros command arg rest Hall. unfold decode.
    rewrite old_reactions_comma; [by apply split_join_comma|].
    rewrite join_comma_cons by done. apply has_comma_append.
Qed.

Lemma token_round_trip_witness :
  decode (join_comma ["meme_vote"; "1"]) = ["meme_vote"; "1"].
Proof.
  apply (proj2 (proj2 token_round_trip) "meme_vote" "1" []).
  repeat constructor.
Defined.

(** ** The exceptions that leave a router *)

Section RaisesOnly.
Context (P : exn -> Prop).

Lemma raises_only_ret {A} (a : A) : raises_only P (ret a).
Proof. intros w e. discriminate. Qed.

Lemma raises_only_raise {A} (e : exn) : P e -> raises_only P (raise (A := A) e).
Proof. intros He w e' [= <-]. exact He. Qed.

Lemma raises_only_returns {A} (m : M A) :
  (forall w, exists a, (m w).1 = Ok a) -> raises_only P m.
Proof. intros H w e He. destruct (H w) as [a Ha]. congruence. Qed.

Lemma raises_only_bind {A B} (m : M A) (k : A -> M B) :
  raises_only P m -> (forall a, raises_only P (k a)) -> raises_only P (bind m k).
Proof.
  intros Hm Hk w e. specialize (Hm w). unfold bind.
  destruct (m w) as [[a|e'] w1]; simpl in *.
  - apply Hk.
  - intros [= <-]. by apply Hm.
Qed.

Lemma raises_only_try_except {A} (m : M A) (h : exn -> option (M A)) :
  (forall w e, (m w).1 = Raise e ->
     match h e with Some k => raises_only P k | None => P e end) ->
  raises_only P (try_except m h).
Proof.
  intros Hm w e. specialize (Hm w). unfold try_except.
  destruct (m w) as [[a|e'] w1]; simpl in *; [discriminate|].
  specialize (Hm e' eq_refl). destruct (h e') as [k|]; simpl.
  - apply Hm.
  - intros [= <-]. exact Hm.
Qed.
End RaisesOnly.

Ltac raises_leaf :=
  first [ apply raises_only_raise; discriminate
        | apply raises_only_returns; intros ?; rewrite ?emit_and_then; eexists; reflexivity ].

Ltac raises_with leaf :=
  repeat (cbv beta; match goal with
  | |- raises_only _ (bind _ _) => apply raises_only_bind; [|intros ?]
  | |- raises_only _ (ret _) => apply raises_only_ret
  | |- raises_only _ (if ?b then _ else _) => destruct b
  | |- raises_only _ (match ?x with _ => _ end) => destruct x
  | |- raises_only _ _ => progress leaf
  end).

Lemma send_message_raises (env : Env) (chat : Z) (text : string) :
  raises_only (fun e => exists t, e = TelegramErr t) (send_message env chat text).
Proof.
  unfold send_message. destruct (deliver env chat).
  - apply raises_only_raise. by eexists.
  - apply raises_only_returns. intros w. rewrite emit_and_then. by eexists.
Qed.

(** The guarded notification returns or lets an error of Telegram
    through. *)
Lemma notify_user_returns (env : Env) (chat : Z) (text where_ : string) :
  raises_only (fun e => e <> IndexError) (notify_user env chat text where_).
Proof.
  unfold notify_user. apply raises_only_try_except. intros w e He.
  apply send_message_raises in He as [t ->].
  destruct (caught t); [|discriminate].
  apply raises_only_returns. intros w'. rewrite emit_and_then. by eexists.
Qed.

Lemma call2_no_index_error (env : Env) (f : Global) (info : CallbackInfo) (arg : string) :
  raises_only (fun e => e <> IndexError) (call2 env f info arg).
Proof.
  destruct f; unfold call2, confirm_callback, settings_callback, approve_yes_callback,
    approve_no_callback, vote_callback, vote_reply, report_spot_callback,
    send_post_to, send_message, show_admins_votes, delete_post,
    set_admin_vote, set_user_vote, from_group, from_channel, tally_of,
    get_post_report, become_anonym, become_credited, keyboard_of, reaction_of,
    answerCallbackQuery, forward_message, InvalidCategory.
  all: raises_with ltac:(first [apply notify_user_returns | raises_leaf]).
Qed.

Lemma call1_no_index_error (env : Env) (f : Global) (arg : string) :
  raises_only (fun e => e <> IndexError) (call1 env f arg).
Proof.
  destruct f; unfold call1, avg_callback, max_callback, tot_callback, close_callback,
    reaction_of.
  all: raises_with raises_leaf.
Qed.

(** X15: the only subscript that can be out of range is [data[1]].  A
    router raises [IndexError] exactly when the token ([meme_callback]:
    after the legacy adapter) has no comma and what follows its prefix
    names a function of the module; no handler raises one. *)
Theorem index_error_without_comma (env : Env) (info : CallbackInfo) (w : World) :
  ((meme_callback env info w).1 = Raise IndexError <->
   has_comma (old_reactions (data info)) = false /\
   is_Some (List.find
              (fun entry =>
                 String.eqb entry.1 (drop_prefix 5 (old_reactions (data info)) ++ "_callback"))
              callbacks)) /\
  ((stats_callback env info w).1 = Raise IndexError <->
   has_comma (data info) = false /\
   is_Some (List.find
              (fun entry => String.eqb entry.1 (drop_prefix 6 (data info) ++ "_callback"))
              callbacks)).
Proof.
  split.
  - destruct (has_comma (old_reactions (data info))) eqn:Hcomma.
    + split; [|intros [[=] _]]. intros Hraise. exfalso.
      destruct (split_comma_with _ Hcomma) as (command & arg & rest & Hdecode).
      fold (decode (data info)) in Hdecode.
      destruct (List.find (fun entry => String.eqb entry.1 (drop_prefix 5 command ++ "_callback"))
                  callbacks) as [entry|] eqn:Hfind.
      * rewrite (meme_callback_dispatch env info w _ _ _ entry Hdecode Hfind) in Hraise.
        cbv zeta in Hraise.
        pose proof (call2_no_index_error env entry.2
                      (with_data info (old_reactions (data info))) arg w) as Hnone.
        destruct (call2 _ _ _ _ w) as [[[[text markup] out]|e] w1].
        -- by destruct text as [[|c text]|], markup as [markup|].
        -- destruct e; try discriminate. by apply (Hnone IndexError).
      * revert Hraise. unfold meme_callback. rewrite meme_callback_decoded, Hdecode. run.
        rewrite globals_find, Hfind. run. discriminate.
    + destruct (List.find _ callbacks) as [entry|] eqn:Hfind;
        unfold meme_callback; rewrite meme_callback_decoded; unfold decode;
        rewrite (split_comma_without _ Hcomma); run; rewrite globals_find, Hfind; run.
      * split; [intros _; split; [reflexivity|by eexists]|reflexivity].
      * split; [discriminate|]. by intros [_ [? ?]].
  - destruct (has_comma (data info)) eqn:Hcomma.
    + split; [|intros [[=] _]]. intros Hraise. exfalso.
      destruct (split_comma_with _ Hcomma) as (command & arg & rest & Hsplit).
      revert Hraise. unfold stats_callback. rewrite Hsplit. run. rewrite globals_find.
      destruct (List.find _ callbacks) as [entry|]; run; [|discriminate].
      pose proof (call1_no_index_error env entry.2 arg
                    (and_then w [AnswerCallbackQuery (query_id info) None])) as Hnone.
      destruct (call1 _ _ _ _) as [[[[|c text]|]|e] w1]; run; try discriminate.
      destruct e; run; try discriminate. intros _. by apply (Hnone IndexError).
    + destruct (List.find _ callbacks) as [entry|] eqn:Hfind;
        unfold stats_callback; rewrite (split_comma_without _ Hcomma); run;
        rewrite globals_find, Hfind; run.
      * split; [intros _; split; [reflexivity|by eexists]|reflexivity].
      * split; [discriminate|]. by intros [_ [? ?]].
Qed.

Lemma index_error_without_comma_witness :
  (stats_callback ex_env (ex_info "stats_close" 42 7 42) ex_empty_world).1
  = Raise IndexError.
Proof.
  apply (proj2 (index_error_without_comma ex_env (ex_info "stats_close" 42 7 42)
                  ex_empty_world)).
  split; [reflexivity|by eexists].
Defined.

(** ** The answer to the callback query *)

#[global] Instance answers_none_preorder : PreOrder (answers 0).
Proof.
  split.
  - intros w. exists []. rewrite app_nil_r. split; [reflexivity|]. unfold count_events. simpl. lia.
  - intros w1 w2 w3 (e1 & H1 & F1) (e2 & H2 & F2). exists (e1 ++ e2)%list.
    split; [by rewrite H2, H1, app_assoc|]. rewrite count_events_app. lia.
Qed.

Lemma answers_then (a b : nat) (w1 w2 w3 : World) :
  answers a w1 w2 -> answers b w2 w3 -> answers (a + b) w1 w3.
Proof.
  intros (e1 & H1 & F1) (e2 & H2 & F2). exists (e1 ++ e2)%list.
  split; [by rewrite H2, H1, app_assoc|]. rewrite count_events_app. lia.
Qed.

Lemma answers_bind {A B} (a b : nat) (m : M A) (k : A -> M B) :
  keeps (answers a) m -> (forall x, keeps (answers b) (k x)) ->
  keeps (answers (a + b)) (bind m k).
Proof.
  intros Hm Hk w. specialize (Hm w). unfold bind.
  destruct (m w) as [[x|e] w1]; simpl in *.
  - eapply answers_then; [exact Hm|apply Hk].
  - destruct Hm as (events & Htrace & Hcount). exists events. split; [done|lia].
Qed.

Lemma answers_emit (e : Event) : keeps (answers 1) (emit e).
Proof.
  intros w. rewrite emit_and_then. exists [e]. split; [reflexivity|].
  unfold count_events. simpl. destruct (is_answer e); simpl; lia.
Qed.

Lemma answers_none_emit (e : Event) : is_answer e = false -> keeps (answers 0) (emit e).
Proof.
  intros He w. rewrite emit_and_then. exists [e]. split; [reflexivity|].
  unfold count_events. simpl. rewrite He. simpl. lia.
Qed.

Lemma answers_none_silent {A} (m : M A) :
  (forall w, trace (m w).2 = trace w) -> keeps (answers 0) m.
Proof.
  intros H w. exists []. rewrite H, app_nil_r. split; [reflexivity|].
  unfold count_events. simpl. lia.
Qed.

Lemma answers_more {A} (m : M A) : keeps (answers 0) m -> keeps (answers 1) m.
Proof. intros H w. destruct (H w) as (events & ? & ?). exists events. split; [done|lia]. Qed.

(** Budgets of answers: none, and at most one (spent by one side of a
    bind). *)
Ltac answers_none_leaf :=
  first [ apply answers_none_emit; reflexivity
        | apply answers_none_silent; intros ?; reflexivity ].

Ltac answers_none := keeps_with answers_none_leaf.

Ltac answers_once :=
  cbv beta;
  lazymatch goal with
  | |- keeps (answers 1) (bind _ _) =>
      first [ apply (answers_bind 0 1); [solve [answers_none]|intros ?; answers_once]
            | apply (answers_bind 1 0); [answers_once|intros ?; solve [answers_none]] ]
  | |- keeps (answers 1) (if ?b then _ else _) => destruct b; answers_once
  | |- keeps (answers 1) (match ?x with _ => _ end) => destruct x; answers_once
  | |- keeps (answers 1) (emit _) => apply answers_emit
  | |- keeps (answers 1) _ => apply answers_more; solve [answers_none]
  end.

Lemma notify_user_no_answer (env : Env) (chat : Z) (text where_ : string) :
  keeps (answers 0) (notify_user env chat text where_).
Proof. unfold notify_user, send_message. answers_none. Qed.

(** A handler answers the callback query at most once. *)
Lemma call2_answers_once (env : Env) (f : Global) (info : CallbackInfo) (arg : string) :
  keeps (answers 1) (call2 env f info arg).
Proof. destruct f; unfold_handlers; answers_once. Qed.

Lemma answers_and_then (n : nat) (w w1 : World) (e : Event) :
  is_answer e = false -> answers n w w1 -> answers n w (and_then w1 [e]).
Proof.
  intros He (events & Htrace & Hcount). exists (events ++ [e])%list. split.
  - simpl. by rewrite Htrace, app_assoc.
  - rewrite count_events_app. unfold count_events at 2. simpl. rewrite He. simpl. lia.
Qed.

Lemma answers_refl (n : nat) (w : World) : answers n w w.
Proof.
  exists []. rewrite app_nil_r. split; [reflexivity|]. unfold count_events. simpl. lia.
Qed.

Lemma meme_callback_answers (n : nat) (env : Env) (info : CallbackInfo) (w : World) :
  (forall command rest f info' arg,
     decode (data info) = command :: rest ->
     (drop_prefix 5 command ++ "_callback", f) ∈ callbacks ->
     keeps (answers n) (call2 env f info' arg)) ->
  answers n w (meme_callback env info w).2.
Proof.
  intros Hcall. unfold meme_callback. rewrite meme_callback_decoded.
  destruct (decode (data info)) as [|data0 [|data1 rest]] eqn:Hdecode; run.
  - apply answers_refl.
  - rewrite globals_find. destruct (List.find _ callbacks) as [entry|]; run;
      [apply answers_refl|].
    by apply (answers_and_then n w w), answers_refl.
  - rewrite globals_find. destruct (List.find _ callbacks) as [entry|] eqn:Hfind; run.
    + pose proof (Hcall data0 (data1 :: rest) entry.2
                    (with_data info (old_reactions (data info))) data1 eq_refl
                    (globals_member _ _ Hfind) w) as Hkept.
      destruct (call2 _ _ _ _ w) as [[[[text markup] out]|e] w1].
      * simpl in Hkept.
        destruct text as [[|c text]|], markup as [markup|]; run; try exact Hkept.
        all: by apply (answers_and_then n w w1).
      * simpl in Hkept. destruct e; run; try exact Hkept.
        by apply (answers_and_then n w w1).
    + by apply (answers_and_then n w w), answers_refl.
Qed.

(** X16: whatever the token and the store, [meme_callback] answers the
    callback query at most once, whether it returns or raises; on a
    confirmation or a settings token it never answers it. *)
Theorem callback_query_answered_once (env : Env) (info : CallbackInfo) (w : World)
    (command : string) (rest : list string) :
  decode (data info) = command :: rest ->
  answers 1 w (meme_callback env info w).2 /\
  (drop_prefix 5 command ∈ ["confirm"; "settings"] ->
   answers 0 w (meme_callback env info w).2).
Proof.
  intros Hdecode. split.
  - apply meme_callback_answers. intros. apply call2_answers_once.
  - intros Hcommand. apply meme_callback_answers.
    intros ? ? f ? ? Hd Hin. rewrite Hdecode in Hd. injection Hd as <- <-.
    repeat (apply elem_of_cons in Hcommand as [Hcommand | Hcommand]);
      [..|by apply elem_of_nil in Hcommand]; rewrite Hcommand in Hin.
    all: destruct f; try (by other_global Hin); unfold_handlers; answers_none.
Qed.

Lemma callback_query_answered_once_witness :
  answers 0 ex_empty_world
    (meme_callback ex_env (ex_info "meme_settings,credit" 42 7 42) ex_empty_world).2.
Proof.
  apply (proj2 (callback_query_answered_once ex_env
                  (ex_info "meme_settings,credit" 42 7 42) ex_empty_world
                  "meme_settings" ["credit"] eq_refl)).
  apply list_elem_of_further, list_elem_of_here.
Defined.
